(** * Verification of the log-monitoring agent (durable SQLite outbox + MongoDB)

    Shallow embedding of [src/agent/agent_with_sql_outbox.py] and
    [src/agent/minimal_tail_agent.py].

    - Python [str] values that hold log text are sequences of Unicode code
      points ([text], a [list Z]); [str.upper] is CPython's full upper-case
      mapping, taken from its Unicode 14.0 tables (CPython 3.11).
    - A log file is the sequence of its bytes ([bytes], a [list Z] of values
      in 0..255); both agents open it in text mode with the UTF-8 locale
      encoding, so [readline] sees the UTF-8 decoding of the bytes with
      universal newlines ("\r\n" and "\r" read as "\n").
    - Identifiers and timestamps ([uuid4], [utcnow().isoformat()]) are
      environment inputs passed as [string] arguments.
    - The SQLite [outbox] table is a list of rows together with the
      AUTOINCREMENT counter ([sqlite_sequence]).
    - The Mongo collection is a list of documents plus a reachability flag;
      the behaviour of [insert_many] is a parameter wherever the claim
      speaks about any remote behaviour. *)

From Stdlib Require Import ZArith Lia.
From stdpp Require Import base list strings sorting relations.
From Stdlib Require Import Ascii.

Open Scope Z_scope.

Abbreviation text := (list Z).

(** A string literal (ASCII) as code points. *)
Definition T (s : string) : text :=
  map (fun a => Z.of_nat (nat_of_ascii a)) (String.list_ascii_of_string s).

(* ------------------------------------------------------------------ *)
(** ** Classifier: [parse_log_line] *)

(** [str.upper]: every code point whose upper-case form differs from itself,
    with that form ([chr(c).upper()] for [c] in [range(0x110000)]); some
    forms have several code points ([chr(223).upper() == "SS"]). *)
Definition upper_table : list (Z * list Z) := [
  (97, [65]); (98, [66]); (99, [67]); (100, [68]); (101, [69]); (102, [70]);
  (103, [71]); (104, [72]); (105, [73]); (106, [74]); (107, [75]); (108, [76]);
  (109, [77]); (110, [78]); (111, [79]); (112, [80]); (113, [81]); (114, [82]);
  (115, [83]); (116, [84]); (117, [85]); (118, [86]); (119, [87]); (120, [88]);
  (121, [89]); (122, [90]); (181, [924]); (223, [83; 83]); (224, [192]); (225, [193]);
  (226, [194]); (227, [195]); (228, [196]); (229, [197]); (230, [198]); (231, [199]);
  (232, [200]); (233, [201]); (234, [202]); (235, [203]); (236, [204]); (237, [205]);
  (238, [206]); (239, [207]); (240, [208]); (241, [209]); (242, [210]); (243, [211]);
  (244, [212]); (245, [213]); (246, [214]); (248, [216]); (249, [217]); (250, [218]);
  (251, [219]); (252, [220]); (253, [221]); (254, [222]); (255, [376]); (257, [256]);
  (259, [258]); (261, [260]); (263, [262]); (265, [264]); (267, [266]); (269, [268]);
  (271, [270]); (273, [272]); (275, [274]); (277, [276]); (279, [278]); (281, [280]);
  (283, [282]); (285, [284]); (287, [286]); (289, [288]); (291, [290]); (293, [292]);
  (295, [294]); (297, [296]); (299, [298]); (301, [300]); (303, [302]); (305, [73]);
  (307, [306]); (309, [308]); (311, [310]); (314, [313]); (316, [315]); (318, [317]);
  (320, [319]); (322, [321]); (324, [323]); (326, [325]); (328, [327]);
  (329, [700; 78]); (331, [330]); (333, [332]); (335, [334]); (337, [336]);
  (339, [338]); (341, [340]); (343, [342]); (345, [344]); (347, [346]); (349, [348]);
  (351, [350]); (353, [352]); (355, [354]); (357, [356]); (359, [358]); (361, [360]);
  (363, [362]); (365, [364]); (367, [366]); (369, [368]); (371, [370]); (373, [372]);
  (375, [374]); (378, [377]); (380, [379]); (382, [381]); (383, [83]); (384, [579]);
  (387, [386]); (389, [388]); (392, [391]); (396, [395]); (402, [401]); (405, [502]);
  (409, [408]); (410, [573]); (414, [544]); (417, [416]); (419, [418]); (421, [420]);
  (424, [423]); (429, [428]); (432, [431]); (436, [435]); (438, [437]); (441, [440]);
  (445, [444]); (447, [503]); (453, [452]); (454, [452]); (456, [455]); (457, [455]);
  (459, [458]); (460, [458]); (462, [461]); (464, [463]); (466, [465]); (468, [467]);
  (470, [469]); (472, [471]); (474, [473]); (476, [475]); (477, [398]); (479, [478]);
  (481, [480]); (483, [482]); (485, [484]); (487, [486]); (489, [488]); (491, [490]);
  (493, [492]); (495, [494]); (496, [74; 780]); (498, [497]); (499, [497]);
  (501, [500]); (505, [504]); (507, [506]); (509, [508]); (511, [510]); (513, [512]);
  (515, [514]); (517, [516]); (519, [518]); (521, [520]); (523, [522]); (525, [524]);
  (527, [526]); (529, [528]); (531, [530]); (533, [532]); (535, [534]); (537, [536]);
  (539, [538]); (541, [540]); (543, [542]); (547, [546]); (549, [548]); (551, [550]);
  (553, [552]); (555, [554]); (557, [556]); (559, [558]); (561, [560]); (563, [562]);
  (572, [571]); (575, [11390]); (576, [11391]); (578, [577]); (583, [582]);
  (585, [584]); (587, [586]); (589, [588]); (591, [590]); (592, [11375]);
  (593, [11373]); (594, [11376]); (595, [385]); (596, [390]); (598, [393]);
  (599, [394]); (601, [399]); (603, [400]); (604, [42923]); (608, [403]);
  (609, [42924]); (611, [404]); (613, [42893]); (614, [42922]); (616, [407]);
  (617, [406]); (618, [42926]); (619, [11362]); (620, [42925]); (623, [412]);
  (625, [11374]); (626, [413]); (629, [415]); (637, [11364]); (640, [422]);
  (642, [42949]); (643, [425]); (647, [42929]); (648, [430]); (649, [580]);
  (650, [433]); (651, [434]); (652, [581]); (658, [439]); (669, [42930]);
  (670, [42928]); (837, [921]); (881, [880]); (883, [882]); (887, [886]);
  (891, [1021]); (892, [1022]); (893, [1023]); (912, [921; 776; 769]); (940, [902]);
  (941, [904]); (942, [905]); (943, [906]); (944, [933; 776; 769]); (945, [913]);
  (946, [914]); (947, [915]); (948, [916]); (949, [917]); (950, [918]); (951, [919]);
  (952, [920]); (953, [921]); (954, [922]); (955, [923]); (956, [924]); (957, [925]);
  (958, [926]); (959, [927]); (960, [928]); (961, [929]); (962, [931]); (963, [931]);
  (964, [932]); (965, [933]); (966, [934]); (967, [935]); (968, [936]); (969, [937]);
  (970, [938]); (971, [939]); (972, [908]); (973, [910]); (974, [911]); (976, [914]);
  (977, [920]); (981, [934]); (982, [928]); (983, [975]); (985, [984]); (987, [986]);
  (989, [988]); (991, [990]); (993, [992]); (995, [994]); (997, [996]); (999, [998]);
  (1001, [1000]); (1003, [1002]); (1005, [1004]); (1007, [1006]); (1008, [922]);
  (1009, [929]); (1010, [1017]); (1011, [895]); (1013, [917]); (1016, [1015]);
  (1019, [1018]); (1072, [1040]); (1073, [1041]); (1074, [1042]); (1075, [1043]);
  (1076, [1044]); (1077, [1045]); (1078, [1046]); (1079, [1047]); (1080, [1048]);
  (1081, [1049]); (1082, [1050]); (1083, [1051]); (1084, [1052]); (1085, [1053]);
  (1086, [1054]); (1087, [1055]); (1088, [1056]); (1089, [1057]); (1090, [1058]);
  (1091, [1059]); (1092, [1060]); (1093, [1061]); (1094, [1062]); (1095, [1063]);
  (1096, [1064]); (1097, [1065]); (1098, [1066]); (1099, [1067]); (1100, [1068]);
  (1101, [1069]); (1102, [1070]); (1103, [1071]); (1104, [1024]); (1105, [1025]);
  (1106, [1026]); (1107, [1027]); (1108, [1028]); (1109, [1029]); (1110, [1030]);
  (1111, [1031]); (1112, [1032]); (1113, [1033]); (1114, [1034]); (1115, [1035]);
  (1116, [1036]); (1117, [1037]); (1118, [1038]); (1119, [1039]); (1121, [1120]);
  (1123, [1122]); (1125, [1124]); (1127, [1126]); (1129, [1128]); (1131, [1130]);
  (1133, [1132]); (1135, [1134]); (1137, [1136]); (1139, [1138]); (1141, [1140]);
  (1143, [1142]); (1145, [1144]); (1147, [1146]); (1149, [1148]); (1151, [1150]);
  (1153, [1152]); (1163, [1162]); (1165, [1164]); (1167, [1166]); (1169, [1168]);
  (1171, [1170]); (1173, [1172]); (1175, [1174]); (1177, [1176]); (1179, [1178]);
  (1181, [1180]); (1183, [1182]); (1185, [1184]); (1187, [1186]); (1189, [1188]);
  (1191, [1190]); (1193, [1192]); (1195, [1194]); (1197, [1196]); (1199, [1198]);
  (1201, [1200]); (1203, [1202]); (1205, [1204]); (1207, [1206]); (1209, [1208]);
  (1211, [1210]); (1213, [1212]); (1215, [1214]); (1218, [1217]); (1220, [1219]);
  (1222, [1221]); (1224, [1223]); (1226, [1225]); (1228, [1227]); (1230, [1229]);
  (1231, [1216]); (1233, [1232]); (1235, [1234]); (1237, [1236]); (1239, [1238]);
  (1241, [1240]); (1243, [1242]); (1245, [1244]); (1247, [1246]); (1249, [1248]);
  (1251, [1250]); (1253, [1252]); (1255, [1254]); (1257, [1256]); (1259, [1258]);
  (1261, [1260]); (1263, [1262]); (1265, [1264]); (1267, [1266]); (1269, [1268]);
  (1271, [1270]); (1273, [1272]); (1275, [1274]); (1277, [1276]); (1279, [1278]);
  (1281, [1280]); (1283, [1282]); (1285, [1284]); (1287, [1286]); (1289, [1288]);
  (1291, [1290]); (1293, [1292]); (1295, [1294]); (1297, [1296]); (1299, [1298]);
  (1301, [1300]); (1303, [1302]); (1305, [1304]); (1307, [1306]); (1309, [1308]);
  (1311, [1310]); (1313, [1312]); (1315, [1314]); (1317, [1316]); (1319, [1318]);
  (1321, [1320]); (1323, [1322]); (1325, [1324]); (1327, [1326]); (1377, [1329]);
  (1378, [1330]); (1379, [1331]); (1380, [1332]); (1381, [1333]); (1382, [1334]);
  (1383, [1335]); (1384, [1336]); (1385, [1337]); (1386, [1338]); (1387, [1339]);
  (1388, [1340]); (1389, [1341]); (1390, [1342]); (1391, [1343]); (1392, [1344]);
  (1393, [1345]); (1394, [1346]); (1395, [1347]); (1396, [1348]); (1397, [1349]);
  (1398, [1350]); (1399, [1351]); (1400, [1352]); (1401, [1353]); (1402, [1354]);
  (1403, [1355]); (1404, [1356]); (1405, [1357]); (1406, [1358]); (1407, [1359]);
  (1408, [1360]); (1409, [1361]); (1410, [1362]); (1411, [1363]); (1412, [1364]);
  (1413, [1365]); (1414, [1366]); (1415, [1333; 1362]); (4304, [7312]); (4305, [7313]);
  (4306, [7314]); (4307, [7315]); (4308, [7316]); (4309, [7317]); (4310, [7318]);
  (4311, [7319]); (4312, [7320]); (4313, [7321]); (4314, [7322]); (4315, [7323]);
  (4316, [7324]); (4317, [7325]); (4318, [7326]); (4319, [7327]); (4320, [7328]);
  (4321, [7329]); (4322, [7330]); (4323, [7331]); (4324, [7332]); (4325, [7333]);
  (4326, [7334]); (4327, [7335]); (4328, [7336]); (4329, [7337]); (4330, [7338]);
  (4331, [7339]); (4332, [7340]); (4333, [7341]); (4334, [7342]); (4335, [7343]);
  (4336, [7344]); (4337, [7345]); (4338, [7346]); (4339, [7347]); (4340, [7348]);
  (4341, [7349]); (4342, [7350]); (4343, [7351]); (4344, [7352]); (4345, [7353]);
  (4346, [7354]); (4349, [7357]); (4350, [7358]); (4351, [7359]); (5112, [5104]);
  (5113, [5105]); (5114, [5106]); (5115, [5107]); (5116, [5108]); (5117, [5109]);
  (7296, [1042]); (7297, [1044]); (7298, [1054]); (7299, [1057]); (7300, [1058]);
  (7301, [1058]); (7302, [1066]); (7303, [1122]); (7304, [42570]); (7545, [42877]);
  (7549, [11363]); (7566, [42950]); (7681, [7680]); (7683, [7682]); (7685, [7684]);
  (7687, [7686]); (7689, [7688]); (7691, [7690]); (7693, [7692]); (7695, [7694]);
  (7697, [7696]); (7699, [7698]); (7701, [7700]); (7703, [7702]); (7705, [7704]);
  (7707, [7706]); (7709, [7708]); (7711, [7710]); (7713, [7712]); (7715, [7714]);
  (7717, [7716]); (7719, [7718]); (7721, [7720]); (7723, [7722]); (7725, [7724]);
  (7727, [7726]); (7729, [7728]); (7731, [7730]); (7733, [7732]); (7735, [7734]);
  (7737, [7736]); (7739, [7738]); (7741, [7740]); (7743, [7742]); (7745, [7744]);
  (7747, [7746]); (7749, [7748]); (7751, [7750]); (7753, [7752]); (7755, [7754]);
  (7757, [7756]); (7759, [7758]); (7761, [7760]); (7763, [7762]); (7765, [7764]);
  (7767, [7766]); (7769, [7768]); (7771, [7770]); (7773, [7772]); (7775, [7774]);
  (7777, [7776]); (7779, [7778]); (7781, [7780]); (7783, [7782]); (7785, [7784]);
  (7787, [7786]); (7789, [7788]); (7791, [7790]); (7793, [7792]); (7795, [7794]);
  (7797, [7796]); (7799, [7798]); (7801, [7800]); (7803, [7802]); (7805, [7804]);
  (7807, [7806]); (7809, [7808]); (7811, [7810]); (7813, [7812]); (7815, [7814]);
  (7817, [7816]); (7819, [7818]); (7821, [7820]); (7823, [7822]); (7825, [7824]);
  (7827, [7826]); (7829, [7828]); (7830, [72; 817]); (7831, [84; 776]);
  (7832, [87; 778]); (7833, [89; 778]); (7834, [65; 702]); (7835, [7776]);
  (7841, [7840]); (7843, [7842]); (7845, [7844]); (7847, [7846]); (7849, [7848]);
  (7851, [7850]); (7853, [7852]); (7855, [7854]); (7857, [7856]); (7859, [7858]);
  (7861, [7860]); (7863, [7862]); (7865, [7864]); (7867, [7866]); (7869, [7868]);
  (7871, [7870]); (7873, [7872]); (7875, [7874]); (7877, [7876]); (7879, [7878]);
  (7881, [7880]); (7883, [7882]); (7885, [7884]); (7887, [7886]); (7889, [7888]);
  (7891, [7890]); (7893, [7892]); (7895, [7894]); (7897, [7896]); (7899, [7898]);
  (7901, [7900]); (7903, [7902]); (7905, [7904]); (7907, [7906]); (7909, [7908]);
  (7911, [7910]); (7913, [7912]); (7915, [7914]); (7917, [7916]); (7919, [7918]);
  (7921, [7920]); (7923, [7922]); (7925, [7924]); (7927, [7926]); (7929, [7928]);
  (7931, [7930]); (7933, [7932]); (7935, [7934]); (7936, [7944]); (7937, [7945]);
  (7938, [7946]); (7939, [7947]); (7940, [7948]); (7941, [7949]); (7942, [7950]);
  (7943, [7951]); (7952, [7960]); (7953, [7961]); (7954, [7962]); (7955, [7963]);
  (7956, [7964]); (7957, [7965]); (7968, [7976]); (7969, [7977]); (7970, [7978]);
  (7971, [7979]); (7972, [7980]); (7973, [7981]); (7974, [7982]); (7975, [7983]);
  (7984, [7992]); (7985, [7993]); (7986, [7994]); (7987, [7995]); (7988, [7996]);
  (7989, [7997]); (7990, [7998]); (7991, [7999]); (8000, [8008]); (8001, [8009]);
  (8002, [8010]); (8003, [8011]); (8004, [8012]); (8005, [8013]); (8016, [933; 787]);
  (8017, [8025]); (8018, [933; 787; 768]); (8019, [8027]); (8020, [933; 787; 769]);
  (8021, [8029]); (8022, [933; 787; 834]); (8023, [8031]); (8032, [8040]);
  (8033, [8041]); (8034, [8042]); (8035, [8043]); (8036, [8044]); (8037, [8045]);
  (8038, [8046]); (8039, [8047]); (8048, [8122]); (8049, [8123]); (8050, [8136]);
  (8051, [8137]); (8052, [8138]); (8053, [8139]); (8054, [8154]); (8055, [8155]);
  (8056, [8184]); (8057, [8185]); (8058, [8170]); (8059, [8171]); (8060, [8186]);
  (8061, [8187]); (8064, [7944; 921]); (8065, [7945; 921]); (8066, [7946; 921]);
  (8067, [7947; 921]); (8068, [7948; 921]); (8069, [7949; 921]); (8070, [7950; 921]);
  (8071, [7951; 921]); (8072, [7944; 921]); (8073, [7945; 921]); (8074, [7946; 921]);
  (8075, [7947; 921]); (8076, [7948; 921]); (8077, [7949; 921]); (8078, [7950; 921]);
  (8079, [7951; 921]); (8080, [7976; 921]); (8081, [7977; 921]); (8082, [7978; 921]);
  (8083, [7979; 921]); (8084, [7980; 921]); (8085, [7981; 921]); (8086, [7982; 921]);
  (8087, [7983; 921]); (8088, [7976; 921]); (8089, [7977; 921]); (8090, [7978; 921]);
  (8091, [7979; 921]); (8092, [7980; 921]); (8093, [7981; 921]); (8094, [7982; 921]);
  (8095, [7983; 921]); (8096, [8040; 921]); (8097, [8041; 921]); (8098, [8042; 921]);
  (8099, [8043; 921]); (8100, [8044; 921]); (8101, [8045; 921]); (8102, [8046; 921]);
  (8103, [8047; 921]); (8104, [8040; 921]); (8105, [8041; 921]); (8106, [8042; 921]);
  (8107, [8043; 921]); (8108, [8044; 921]); (8109, [8045; 921]); (8110, [8046; 921]);
  (8111, [8047; 921]); (8112, [8120]); (8113, [8121]); (8114, [8122; 921]);
  (8115, [913; 921]); (8116, [902; 921]); (8118, [913; 834]); (8119, [913; 834; 921]);
  (8124, [913; 921]); (8126, [921]); (8130, [8138; 921]); (8131, [919; 921]);
  (8132, [905; 921]); (8134, [919; 834]); (8135, [919; 834; 921]); (8140, [919; 921]);
  (8144, [8152]); (8145, [8153]); (8146, [921; 776; 768]); (8147, [921; 776; 769]);
  (8150, [921; 834]); (8151, [921; 776; 834]); (8160, [8168]); (8161, [8169]);
  (8162, [933; 776; 768]); (8163, [933; 776; 769]); (8164, [929; 787]); (8165, [8172]);
  (8166, [933; 834]); (8167, [933; 776; 834]); (8178, [8186; 921]); (8179, [937; 921]);
  (8180, [911; 921]); (8182, [937; 834]); (8183, [937; 834; 921]); (8188, [937; 921]);
  (8526, [8498]); (8560, [8544]); (8561, [8545]); (8562, [8546]); (8563, [8547]);
  (8564, [8548]); (8565, [8549]); (8566, [8550]); (8567, [8551]); (8568, [8552]);
  (8569, [8553]); (8570, [8554]); (8571, [8555]); (8572, [8556]); (8573, [8557]);
  (8574, [8558]); (8575, [8559]); (8580, [8579]); (9424, [9398]); (9425, [9399]);
  (9426, [9400]); (9427, [9401]); (9428, [9402]); (9429, [9403]); (9430, [9404]);
  (9431, [9405]); (9432, [9406]); (9433, [9407]); (9434, [9408]); (9435, [9409]);
  (9436, [9410]); (9437, [9411]); (9438, [9412]); (9439, [9413]); (9440, [9414]);
  (9441, [9415]); (9442, [9416]); (9443, [9417]); (9444, [9418]); (9445, [9419]);
  (9446, [9420]); (9447, [9421]); (9448, [9422]); (9449, [9423]); (11312, [11264]);
  (11313, [11265]); (11314, [11266]); (11315, [11267]); (11316, [11268]);
  (11317, [11269]); (11318, [11270]); (11319, [11271]); (11320, [11272]);
  (11321, [11273]); (11322, [11274]); (11323, [11275]); (11324, [11276]);
  (11325, [11277]); (11326, [11278]); (11327, [11279]); (11328, [11280]);
  (11329, [11281]); (11330, [11282]); (11331, [11283]); (11332, [11284]);
  (11333, [11285]); (11334, [11286]); (11335, [11287]); (11336, [11288]);
  (11337, [11289]); (11338, [11290]); (11339, [11291]); (11340, [11292]);
  (11341, [11293]); (11342, [11294]); (11343, [11295]); (11344, [11296]);
  (11345, [11297]); (11346, [11298]); (11347, [11299]); (11348, [11300]);
  (11349, [11301]); (11350, [11302]); (11351, [11303]); (11352, [11304]);
  (11353, [11305]); (11354, [11306]); (11355, [11307]); (11356, [11308]);
  (11357, [11309]); (11358, [11310]); (11359, [11311]); (11361, [11360]);
  (11365, [570]); (11366, [574]); (11368, [11367]); (11370, [11369]); (11372, [11371]);
  (11379, [11378]); (11382, [11381]); (11393, [11392]); (11395, [11394]);
  (11397, [11396]); (11399, [11398]); (11401, [11400]); (11403, [11402]);
  (11405, [11404]); (11407, [11406]); (11409, [11408]); (11411, [11410]);
  (11413, [11412]); (11415, [11414]); (11417, [11416]); (11419, [11418]);
  (11421, [11420]); (11423, [11422]); (11425, [11424]); (11427, [11426]);
  (11429, [11428]); (11431, [11430]); (11433, [11432]); (11435, [11434]);
  (11437, [11436]); (11439, [11438]); (11441, [11440]); (11443, [11442]);
  (11445, [11444]); (11447, [11446]); (11449, [11448]); (11451, [11450]);
  (11453, [11452]); (11455, [11454]); (11457, [11456]); (11459, [11458]);
  (11461, [11460]); (11463, [11462]); (11465, [11464]); (11467, [11466]);
  (11469, [11468]); (11471, [11470]); (11473, [11472]); (11475, [11474]);
  (11477, [11476]); (11479, [11478]); (11481, [11480]); (11483, [11482]);
  (11485, [11484]); (11487, [11486]); (11489, [11488]); (11491, [11490]);
  (11500, [11499]); (11502, [11501]); (11507, [11506]); (11520, [4256]);
  (11521, [4257]); (11522, [4258]); (11523, [4259]); (11524, [4260]); (11525, [4261]);
  (11526, [4262]); (11527, [4263]); (11528, [4264]); (11529, [4265]); (11530, [4266]);
  (11531, [4267]); (11532, [4268]); (11533, [4269]); (11534, [4270]); (11535, [4271]);
  (11536, [4272]); (11537, [4273]); (11538, [4274]); (11539, [4275]); (11540, [4276]);
  (11541, [4277]); (11542, [4278]); (11543, [4279]); (11544, [4280]); (11545, [4281]);
  (11546, [4282]); (11547, [4283]); (11548, [4284]); (11549, [4285]); (11550, [4286]);
  (11551, [4287]); (11552, [4288]); (11553, [4289]); (11554, [4290]); (11555, [4291]);
  (11556, [4292]); (11557, [4293]); (11559, [4295]); (11565, [4301]); (42561, [42560]);
  (42563, [42562]); (42565, [42564]); (42567, [42566]); (42569, [42568]);
  (42571, [42570]); (42573, [42572]); (42575, [42574]); (42577, [42576]);
  (42579, [42578]); (42581, [42580]); (42583, [42582]); (42585, [42584]);
  (42587, [42586]); (42589, [42588]); (42591, [42590]); (42593, [42592]);
  (42595, [42594]); (42597, [42596]); (42599, [42598]); (42601, [42600]);
  (42603, [42602]); (42605, [42604]); (42625, [42624]); (42627, [42626]);
  (42629, [42628]); (42631, [42630]); (42633, [42632]); (42635, [42634]);
  (42637, [42636]); (42639, [42638]); (42641, [42640]); (42643, [42642]);
  (42645, [42644]); (42647, [42646]); (42649, [42648]); (42651, [42650]);
  (42787, [42786]); (42789, [42788]); (42791, [42790]); (42793, [42792]);
  (42795, [42794]); (42797, [42796]); (42799, [42798]); (42803, [42802]);
  (42805, [42804]); (42807, [42806]); (42809, [42808]); (42811, [42810]);
  (42813, [42812]); (42815, [42814]); (42817, [42816]); (42819, [42818]);
  (42821, [42820]); (42823, [42822]); (42825, [42824]); (42827, [42826]);
  (42829, [42828]); (42831, [42830]); (42833, [42832]); (42835, [42834]);
  (42837, [42836]); (42839, [42838]); (42841, [42840]); (42843, [42842]);
  (42845, [42844]); (42847, [42846]); (42849, [42848]); (42851, [42850]);
  (42853, [42852]); (42855, [42854]); (42857, [42856]); (42859, [42858]);
  (42861, [42860]); (42863, [42862]); (42874, [42873]); (42876, [42875]);
  (42879, [42878]); (42881, [42880]); (42883, [42882]); (42885, [42884]);
  (42887, [42886]); (42892, [42891]); (42897, [42896]); (42899, [42898]);
  (42900, [42948]); (42903, [42902]); (42905, [42904]); (42907, [42906]);
  (42909, [42908]); (42911, [42910]); (42913, [42912]); (42915, [42914]);
  (42917, [42916]); (42919, [42918]); (42921, [42920]); (42933, [42932]);
  (42935, [42934]); (42937, [42936]); (42939, [42938]); (42941, [42940]);
  (42943, [42942]); (42945, [42944]); (42947, [42946]); (42952, [42951]);
  (42954, [42953]); (42961, [42960]); (42967, [42966]); (42969, [42968]);
  (42998, [42997]); (43859, [42931]); (43888, [5024]); (43889, [5025]);
  (43890, [5026]); (43891, [5027]); (43892, [5028]); (43893, [5029]); (43894, [5030]);
  (43895, [5031]); (43896, [5032]); (43897, [5033]); (43898, [5034]); (43899, [5035]);
  (43900, [5036]); (43901, [5037]); (43902, [5038]); (43903, [5039]); (43904, [5040]);
  (43905, [5041]); (43906, [5042]); (43907, [5043]); (43908, [5044]); (43909, [5045]);
  (43910, [5046]); (43911, [5047]); (43912, [5048]); (43913, [5049]); (43914, [5050]);
  (43915, [5051]); (43916, [5052]); (43917, [5053]); (43918, [5054]); (43919, [5055]);
  (43920, [5056]); (43921, [5057]); (43922, [5058]); (43923, [5059]); (43924, [5060]);
  (43925, [5061]); (43926, [5062]); (43927, [5063]); (43928, [5064]); (43929, [5065]);
  (43930, [5066]); (43931, [5067]); (43932, [5068]); (43933, [5069]); (43934, [5070]);
  (43935, [5071]); (43936, [5072]); (43937, [5073]); (43938, [5074]); (43939, [5075]);
  (43940, [5076]); (43941, [5077]); (43942, [5078]); (43943, [5079]); (43944, [5080]);
  (43945, [5081]); (43946, [5082]); (43947, [5083]); (43948, [5084]); (43949, [5085]);
  (43950, [5086]); (43951, [5087]); (43952, [5088]); (43953, [5089]); (43954, [5090]);
  (43955, [5091]); (43956, [5092]); (43957, [5093]); (43958, [5094]); (43959, [5095]);
  (43960, [5096]); (43961, [5097]); (43962, [5098]); (43963, [5099]); (43964, [5100]);
  (43965, [5101]); (43966, [5102]); (43967, [5103]); (64256, [70; 70]);
  (64257, [70; 73]); (64258, [70; 76]); (64259, [70; 70; 73]); (64260, [70; 70; 76]);
  (64261, [83; 84]); (64262, [83; 84]); (64275, [1348; 1350]); (64276, [1348; 1333]);
  (64277, [1348; 1339]); (64278, [1358; 1350]); (64279, [1348; 1341]);
  (65345, [65313]); (65346, [65314]); (65347, [65315]); (65348, [65316]);
  (65349, [65317]); (65350, [65318]); (65351, [65319]); (65352, [65320]);
  (65353, [65321]); (65354, [65322]); (65355, [65323]); (65356, [65324]);
  (65357, [65325]); (65358, [65326]); (65359, [65327]); (65360, [65328]);
  (65361, [65329]); (65362, [65330]); (65363, [65331]); (65364, [65332]);
  (65365, [65333]); (65366, [65334]); (65367, [65335]); (65368, [65336]);
  (65369, [65337]); (65370, [65338]); (66600, [66560]); (66601, [66561]);
  (66602, [66562]); (66603, [66563]); (66604, [66564]); (66605, [66565]);
  (66606, [66566]); (66607, [66567]); (66608, [66568]); (66609, [66569]);
  (66610, [66570]); (66611, [66571]); (66612, [66572]); (66613, [66573]);
  (66614, [66574]); (66615, [66575]); (66616, [66576]); (66617, [66577]);
  (66618, [66578]); (66619, [66579]); (66620, [66580]); (66621, [66581]);
  (66622, [66582]); (66623, [66583]); (66624, [66584]); (66625, [66585]);
  (66626, [66586]); (66627, [66587]); (66628, [66588]); (66629, [66589]);
  (66630, [66590]); (66631, [66591]); (66632, [66592]); (66633, [66593]);
  (66634, [66594]); (66635, [66595]); (66636, [66596]); (66637, [66597]);
  (66638, [66598]); (66639, [66599]); (66776, [66736]); (66777, [66737]);
  (66778, [66738]); (66779, [66739]); (66780, [66740]); (66781, [66741]);
  (66782, [66742]); (66783, [66743]); (66784, [66744]); (66785, [66745]);
  (66786, [66746]); (66787, [66747]); (66788, [66748]); (66789, [66749]);
  (66790, [66750]); (66791, [66751]); (66792, [66752]); (66793, [66753]);
  (66794, [66754]); (66795, [66755]); (66796, [66756]); (66797, [66757]);
  (66798, [66758]); (66799, [66759]); (66800, [66760]); (66801, [66761]);
  (66802, [66762]); (66803, [66763]); (66804, [66764]); (66805, [66765]);
  (66806, [66766]); (66807, [66767]); (66808, [66768]); (66809, [66769]);
  (66810, [66770]); (66811, [66771]); (66967, [66928]); (66968, [66929]);
  (66969, [66930]); (66970, [66931]); (66971, [66932]); (66972, [66933]);
  (66973, [66934]); (66974, [66935]); (66975, [66936]); (66976, [66937]);
  (66977, [66938]); (66979, [66940]); (66980, [66941]); (66981, [66942]);
  (66982, [66943]); (66983, [66944]); (66984, [66945]); (66985, [66946]);
  (66986, [66947]); (66987, [66948]); (66988, [66949]); (66989, [66950]);
  (66990, [66951]); (66991, [66952]); (66992, [66953]); (66993, [66954]);
  (66995, [66956]); (66996, [66957]); (66997, [66958]); (66998, [66959]);
  (66999, [66960]); (67000, [66961]); (67001, [66962]); (67003, [66964]);
  (67004, [66965]); (68800, [68736]); (68801, [68737]); (68802, [68738]);
  (68803, [68739]); (68804, [68740]); (68805, [68741]); (68806, [68742]);
  (68807, [68743]); (68808, [68744]); (68809, [68745]); (68810, [68746]);
  (68811, [68747]); (68812, [68748]); (68813, [68749]); (68814, [68750]);
  (68815, [68751]); (68816, [68752]); (68817, [68753]); (68818, [68754]);
  (68819, [68755]); (68820, [68756]); (68821, [68757]); (68822, [68758]);
  (68823, [68759]); (68824, [68760]); (68825, [68761]); (68826, [68762]);
  (68827, [68763]); (68828, [68764]); (68829, [68765]); (68830, [68766]);
  (68831, [68767]); (68832, [68768]); (68833, [68769]); (68834, [68770]);
  (68835, [68771]); (68836, [68772]); (68837, [68773]); (68838, [68774]);
  (68839, [68775]); (68840, [68776]); (68841, [68777]); (68842, [68778]);
  (68843, [68779]); (68844, [68780]); (68845, [68781]); (68846, [68782]);
  (68847, [68783]); (68848, [68784]); (68849, [68785]); (68850, [68786]);
  (71872, [71840]); (71873, [71841]); (71874, [71842]); (71875, [71843]);
  (71876, [71844]); (71877, [71845]); (71878, [71846]); (71879, [71847]);
  (71880, [71848]); (71881, [71849]); (71882, [71850]); (71883, [71851]);
  (71884, [71852]); (71885, [71853]); (71886, [71854]); (71887, [71855]);
  (71888, [71856]); (71889, [71857]); (71890, [71858]); (71891, [71859]);
  (71892, [71860]); (71893, [71861]); (71894, [71862]); (71895, [71863]);
  (71896, [71864]); (71897, [71865]); (71898, [71866]); (71899, [71867]);
  (71900, [71868]); (71901, [71869]); (71902, [71870]); (71903, [71871]);
  (93792, [93760]); (93793, [93761]); (93794, [93762]); (93795, [93763]);
  (93796, [93764]); (93797, [93765]); (93798, [93766]); (93799, [93767]);
  (93800, [93768]); (93801, [93769]); (93802, [93770]); (93803, [93771]);
  (93804, [93772]); (93805, [93773]); (93806, [93774]); (93807, [93775]);
  (93808, [93776]); (93809, [93777]); (93810, [93778]); (93811, [93779]);
  (93812, [93780]); (93813, [93781]); (93814, [93782]); (93815, [93783]);
  (93816, [93784]); (93817, [93785]); (93818, [93786]); (93819, [93787]);
  (93820, [93788]); (93821, [93789]); (93822, [93790]); (93823, [93791]);
  (125218, [125184]); (125219, [125185]); (125220, [125186]); (125221, [125187]);
  (125222, [125188]); (125223, [125189]); (125224, [125190]); (125225, [125191]);
  (125226, [125192]); (125227, [125193]); (125228, [125194]); (125229, [125195]);
  (125230, [125196]); (125231, [125197]); (125232, [125198]); (125233, [125199]);
  (125234, [125200]); (125235, [125201]); (125236, [125202]); (125237, [125203]);
  (125238, [125204]); (125239, [125205]); (125240, [125206]); (125241, [125207]);
  (125242, [125208]); (125243, [125209]); (125244, [125210]); (125245, [125211]);
  (125246, [125212]); (125247, [125213]); (125248, [125214]); (125249, [125215]);
  (125250, [125216]); (125251, [125217])
].

Fixpoint assoc_lookup (c : Z) (t : list (Z * list Z)) : option (list Z) :=
  match t with
  | [] => None
  | (c', u) :: t' => if bool_decide (c = c') then Some u else assoc_lookup c t'
  end.

Definition upper_char (c : Z) : list Z :=
  match assoc_lookup c upper_table with Some u => u | None => [c] end.

(** Python [s.upper()]: the code points' upper-case forms, concatenated. *)
Definition upper (s : text) : text := concat (map upper_char s).

Fixpoint is_prefix (k s : text) : bool :=
  match k, s with
  | [], _ => true
  | c :: k', d :: s' => bool_decide (c = d) && is_prefix k' s'
  | _ :: _, [] => false
  end.

(** Python [k in s] for strings: substring test. *)
Fixpoint contains (s k : text) : bool :=
  is_prefix k s || match s with [] => false | _ :: s' => contains s' k end.

(** [line.rstrip("\n")]: drop every trailing newline. *)
Fixpoint drop_newlines (s : text) : text :=
  match s with
  | c :: s' => if bool_decide (c = 10) then drop_newlines s' else s
  | [] => []
  end.

Definition rstrip_nl (s : text) : text := rev (drop_newlines (rev s)).

Definition levels : list text :=
  [T "CRITICAL"; T "FATAL"; T "ERROR"; T "WARNING"; T "WARN"].

(** The [for level in [...]: if level in up: severity = level; break] loop,
    starting from [severity = "INFO"]. *)
Fixpoint scan_levels (lvls : list text) (up : text) : text :=
  match lvls with
  | [] => T "INFO"
  | lvl :: rest => if contains up lvl then lvl else scan_levels rest up
  end.

Record event := {
  ev_event_id : string;
  ev_timestamp : string;
  ev_message : text;
  ev_severity : text
}.

(** [parse_log_line]; [eid] is the fresh [str(uuid.uuid4())] and [ts] the
    value of [now_iso()]. *)
Definition parse_log_line (eid ts : string) (line0 : text) : option event :=
  let line := rstrip_nl line0 in
  match line with
  | [] => None
  | _ =>
      let up := upper line in
      Some {| ev_event_id := eid; ev_timestamp := ts;
              ev_message := line; ev_severity := scan_levels levels up |}
  end.

Example parse_error_warning :
  option_map ev_severity (parse_log_line "id" "ts" (T "an Error and a warning")) = Some (T "ERROR").
Proof. vm_compute. reflexivity. Qed.

(* ------------------------------------------------------------------ *)
(** ** SQLite outbox: [persist_log], [fetch_unsent], [mark_sent] *)

(** A row of table [outbox] (id, event_id, timestamp, message, severity, sent). *)
Record row := {
  row_id : Z;
  row_event_id : string;
  row_timestamp : string;
  row_message : text;
  row_severity : text;
  row_sent : bool
}.

(** The table together with its AUTOINCREMENT counter ([sqlite_sequence]). *)
Record outbox := {
  ob_rows : list row;
  ob_seq : Z
}.

Definition empty_outbox : outbox := {| ob_rows := []; ob_seq := 0 |}.

Definition max_id (rs : list row) : Z :=
  fold_right (fun r m => Z.max (row_id r) m) 0 rs.

(** What [persist_log] reports (it prints and returns [None] in both cases). *)
Inductive persist_report :=
  | Persisted (eid : string) (msg : text)
  | DuplicateSkipped (eid : string).

Definition has_event_id (rs : list row) (eid : string) : bool :=
  existsb (fun r => bool_decide (row_event_id r = eid)) rs.

(** [INSERT ... VALUES (?, ?, ?, ?, 0)]: the UNIQUE constraint on [event_id]
    raises [IntegrityError], which is caught; the failed statement leaves
    the table and the AUTOINCREMENT counter as they were.  Otherwise the new
    row gets the next AUTOINCREMENT id. *)
Definition persist_log (s : outbox) (e : event) : outbox * persist_report :=
  if has_event_id (ob_rows s) (ev_event_id e)
  then (s, DuplicateSkipped (ev_event_id e))
  else
    let nid := Z.max (ob_seq s) (max_id (ob_rows s)) + 1 in
    let r := {| row_id := nid; row_event_id := ev_event_id e;
                row_timestamp := ev_timestamp e; row_message := ev_message e;
                row_severity := ev_severity e; row_sent := false |} in
    ({| ob_rows := ob_rows s ++ [r]; ob_seq := nid |},
     Persisted (ev_event_id e) (ev_message e)).

(** SQLite [LIMIT n]: a negative [n] means no limit. *)
Definition sql_limit {A} (limit : Z) (l : list A) : list A :=
  if limit <? 0 then l else take (Z.to_nat limit) l.

Definition id_le (r1 r2 : row) : Prop := row_id r1 <= row_id r2.
#[global] Instance id_le_dec : RelDecision id_le :=
  fun r1 r2 => Z.le_dec (row_id r1) (row_id r2).

(** [SELECT ... FROM outbox WHERE sent = 0 ORDER BY id ASC LIMIT ?],
    before the column projection. *)
Definition fetch_unsent_rows (s : outbox) (limit : Z) : list row :=
  sql_limit limit (merge_sort id_le (filter (fun r => row_sent r = false) (ob_rows s))).

Definition row_tuple (r : row) : string * string * text * text :=
  (row_event_id r, row_timestamp r, row_message r, row_severity r).

(** [fetch_unsent], state-passing: the SELECT leaves the store as it is. *)
Definition fetch_unsent (s : outbox) (limit : Z)
    : outbox * list (string * string * text * text) :=
  (s, map row_tuple (fetch_unsent_rows s limit)).

Definition set_sent (r : row) : row :=
  {| row_id := row_id r; row_event_id := row_event_id r;
     row_timestamp := row_timestamp r; row_message := row_message r;
     row_severity := row_severity r; row_sent := true |}.

(** [mark_sent]: [UPDATE outbox SET sent = 1 WHERE event_id IN (...)]. *)
Definition mark_sent (s : outbox) (event_ids : list string) : outbox :=
  match event_ids with
  | [] => s
  | _ => {| ob_rows := map (fun r => if bool_decide (row_event_id r ∈ event_ids)
                                     then set_sent r else r) (ob_rows s);
            ob_seq := ob_seq s |}
  end.

(* ------------------------------------------------------------------ *)
(** ** MongoDB side: [send_batch_to_mongo] *)

Record doc := {
  d_event_id : string;
  d_timestamp : string;
  d_message : text;
  d_severity : text;
  d_captured_at : string
}.

(** The collection: its documents, and whether the server is reachable. *)
Record coll := {
  c_docs : list doc;
  c_up : bool
}.

(** How [coll.insert_many(docs, ordered=False)] ended. *)
Inductive insert_outcome := InsertOk | BulkWriteError | OtherError.

(** [coll.find({"event_id": {"$in": event_ids}}, ...)]; [None] when the
    query raises (server unreachable). *)
Definition mongo_find (c : coll) (event_ids : list string) : option (list doc) :=
  if c_up c then Some (filter (fun d => d_event_id d ∈ event_ids) (c_docs c))
  else None.

Definition present (c : coll) (eid : string) : Prop :=
  eid ∈ map d_event_id (c_docs c).

(** Result of a Python call that returns a pair of lists or raises. *)
Inductive send_result :=
  | Returned (succeeded failed : list string)
  | Raised.

Section Send.
(** The remote's behaviour on [insert_many]: its new state and outcome. *)
Variable insert_many : coll -> list doc -> coll * insert_outcome.

Definition send_batch_to_mongo (c : coll) (docs : list doc) : coll * send_result :=
  match docs with
  | [] => (c, Returned [] [])
  | _ =>
      let '(c', out) := insert_many c docs in
      match out with
      | InsertOk => (c', Returned (map d_event_id docs) [])
      | BulkWriteError =>
          let event_ids := map d_event_id docs in
          match mongo_find c' event_ids with
          | None => (c', Raised)
          | Some found_docs =>
              let found := map d_event_id found_docs in
              (c', Returned (filter (fun eid => eid ∈ found) event_ids)
                            (filter (fun eid => eid ∉ found) event_ids))
          end
      | OtherError => (c', Raised)
      end
  end.

(** What one [flush_outbox] call did. *)
Inductive flush_report :=
  | FlushNoop
  | FlushDone (batch succeeded failed : list string)
  | FlushRaised (batch : list string).

Definition doc_of_tuple (now : string) (t : string * string * text * text) : doc :=
  let '(eid, ts, msg, sev) := t in
  {| d_event_id := eid; d_timestamp := ts; d_message := msg;
     d_severity := sev; d_captured_at := now |}.

(** [flush_outbox conn mongo_coll] with [BATCH_SIZE = batch_size] and
    [now_iso() = now]; an exception from [send_batch_to_mongo] is
    re-raised after the store has been left untouched. *)
Definition flush_outbox (batch_size : Z) (now : string) (s : outbox) (c : coll)
    : outbox * coll * flush_report :=
  let '(s0, rows) := fetch_unsent s batch_size in
  match rows with
  | [] => (s0, c, FlushNoop)
  | _ =>
      let docs := map (doc_of_tuple now) rows in
      let event_ids := map d_event_id docs in
      match send_batch_to_mongo c docs with
      | (c', Raised) => (s0, c', FlushRaised event_ids)
      | (c', Returned succeeded failed) =>
          let s1 := match succeeded with [] => s0 | _ => mark_sent s0 succeeded end in
          (s1, c', FlushDone event_ids succeeded failed)
      end
  end.
End Send.

(** A concrete MongoDB collection with the unique index on [event_id]:
    an unordered bulk insert stores every document whose [event_id] is new
    and reports [BulkWriteError] if any document was rejected; an
    unreachable server raises another error. *)
Fixpoint insert_unordered (stored : list doc) (ds : list doc) : list doc * bool :=
  match ds with
  | [] => (stored, false)
  | d :: ds' =>
      if bool_decide (d_event_id d ∈ map d_event_id stored)
      then (fst (insert_unordered stored ds'), true)
      else insert_unordered (stored ++ [d]) ds'
  end.

Definition mongo_insert_many (c : coll) (docs : list doc) : coll * insert_outcome :=
  if c_up c then
    let '(stored, err) := insert_unordered (c_docs c) docs in
    ({| c_docs := stored; c_up := true |}, if err then BulkWriteError else InsertOk)
  else (c, OtherError).

(* ------------------------------------------------------------------ *)
(** ** Reading the file: [readline] and the two tailers *)

Definition newline : Z := 10.
Definition carriage_return : Z := 13.

(** The bytes of a file; each is a value in 0..255. *)
Abbreviation bytes := (list Z).

(** **** Decoding: the UTF-8 codec under [TextIOWrapper] *)

(** One step of CPython's UTF-8 decoder: a decoded code point, or an
    error covering the bytes skipped. *)
Inductive dunit := DChar (c : Z) | DErr.

Definition is_cont (b : Z) : bool := (128 <=? b) && (b <=? 191).

(** The admissible second bytes after a lead byte (no overlong forms, no
    surrogates, nothing above U+10FFFF). *)
Definition second_ok (b0 b1 : Z) : bool :=
  if b0 =? 224 then (160 <=? b1) && (b1 <=? 191)
  else if b0 =? 237 then (128 <=? b1) && (b1 <=? 159)
  else if b0 =? 240 then (144 <=? b1) && (b1 <=? 191)
  else if b0 =? 244 then (128 <=? b1) && (b1 <=? 143)
  else is_cont b1.

(** [utf8_decode] of [Objects/unicodeobject.c] with [final] set (the data
    runs to EOF): an invalid lead byte is one error; a sequence broken by a
    byte that cannot continue it is one error covering its valid prefix,
    and decoding resumes at that byte; a sequence cut by the end of the data
    is one error covering the rest. *)
Fixpoint utf8_units (bs : bytes) : list dunit :=
  match bs with
  | [] => []
  | b0 :: r0 =>
      if b0 <? 128 then DChar b0 :: utf8_units r0
      else if (b0 <? 194) || (244 <? b0) then DErr :: utf8_units r0
      else match r0 with
        | [] => [DErr]
        | b1 :: r1 =>
            if negb (second_ok b0 b1) then DErr :: utf8_units r0
            else if b0 <? 224 then
              DChar (Z.lor (Z.shiftl (Z.land b0 31) 6) (Z.land b1 63)) :: utf8_units r1
            else match r1 with
              | [] => [DErr]
              | b2 :: r2 =>
                  if negb (is_cont b2) then DErr :: utf8_units r1
                  else if b0 <? 240 then
                    DChar (Z.lor (Z.lor (Z.shiftl (Z.land b0 15) 12)
                                        (Z.shiftl (Z.land b1 63) 6)) (Z.land b2 63))
                      :: utf8_units r2
                  else match r2 with
                    | [] => [DErr]
                    | b3 :: r3 =>
                        if negb (is_cont b3) then DErr :: utf8_units r2
                        else DChar (Z.lor (Z.lor (Z.lor (Z.shiftl (Z.land b0 7) 18)
                                                        (Z.shiftl (Z.land b1 63) 12))
                                                 (Z.shiftl (Z.land b2 63) 6))
                                          (Z.land b3 63)) :: utf8_units r3
                    end
              end
        end
  end.

(** [errors="strict"] (the default of [open]): the first error raises
    [UnicodeDecodeError] ([None]). *)
Fixpoint units_strict (us : list dunit) : option text :=
  match us with
  | [] => Some []
  | DChar c :: us' => option_map (cons c) (units_strict us')
  | DErr :: _ => None
  end.

(** [errors="ignore"]: the bytes in error are dropped. *)
Fixpoint units_ignore (us : list dunit) : text :=
  match us with
  | [] => []
  | DChar c :: us' => c :: units_ignore us'
  | DErr :: us' => units_ignore us'
  end.

Definition utf8_decode_strict (bs : bytes) : option text := units_strict (utf8_units bs).
Definition utf8_decode_ignore (bs : bytes) : text := units_ignore (utf8_units bs).

(** [IncrementalNewlineDecoder] with [translate=True] (universal newlines,
    [newline=None]): "\r\n" and a lone "\r" become "\n"; at EOF the decoder
    is final, so a trailing "\r" is a line end too. *)
Fixpoint translate_newlines (s : text) : text :=
  match s with
  | [] => []
  | c :: s' =>
      if bool_decide (c = carriage_return) then
        newline :: match s' with
                   | d :: s'' => if bool_decide (d = newline) then translate_newlines s''
                                 else translate_newlines s'
                   | [] => []
                   end
      else c :: translate_newlines s'
  end.

(** **** [readline] on the decoded stream *)

(** The characters [f.readline()] returns from the decoded rest of the
    file: up to and including the first newline, or everything up to EOF. *)
Fixpoint take_line (s : text) : text :=
  match s with
  | [] => []
  | c :: s' => if bool_decide (c = newline) then [c] else c :: take_line s' end.

(** [f.readline()] on the decoded text [t] of a read round, from the
    character offset [i]: the line read and the new offset. *)
Definition readline (t : text) (i : nat) : text * nat :=
  let l := take_line (drop i t) in (l, (i + length l)%nat).

(** [readline] until it returns [""]: the lines read and the final offset.
    Each non-empty read advances the offset, so [length t] calls suffice. *)
Fixpoint read_available (fuel : nat) (t : text) (i : nat) : list text * nat :=
  match fuel with
  | O => ([], i)
  | S fuel' =>
      let '(l, i') := readline t i in
      match l with
      | [] => ([], i)
      | _ => let '(ls, i'') := read_available fuel' t i' in (l :: ls, i'')
      end
  end.

(** The lines successive [readline] calls return from a decoded text. *)
Definition text_lines (t : text) : list text := fst (read_available (length t) t 0).

(** One polling round of [follow] on the file object [f], whose position
    is the byte offset [pos], when the file's bytes are [content]:
    [readline] until it returns [""] (then [follow] sleeps). The bytes from
    [pos] to EOF are decoded strictly and newline-translated; [None] when
    they do not decode, that is, a [readline] of this round raises
    [UnicodeDecodeError]. Otherwise the lines yielded and the new position
    ([f.tell()]: EOF, or [pos] itself if the file is now shorter). *)
Definition follow_round (content : bytes) (pos : nat) : option (list text * nat) :=
  match utf8_decode_strict (drop pos content) with
  | None => None
  | Some t => Some (text_lines (translate_newlines t), Nat.max pos (length content))
  end.

Section Monitor.
Variable insert_many : coll -> list doc -> coll * insert_outcome.
Variable batch_size : Z.

(** The body of [monitor_logs]'s loop over the yielded lines: parse,
    persist, then a best-effort flush whose exception is swallowed.
    [eids] supplies the successive [uuid4] values and [ts] the clock. *)
Fixpoint monitor_lines (s : outbox) (c : coll) (eids : list string) (ts : string)
    (lines : list text) : outbox * coll :=
  match lines, eids with
  | l :: ls, eid :: eids' =>
      match parse_log_line eid ts l with
      | None => monitor_lines s c eids ts ls
      | Some e =>
          let s1 := fst (persist_log s e) in
          let '(s2, c2, _) := flush_outbox insert_many batch_size ts s1 c in
          monitor_lines s2 c2 eids' ts ls
      end
  | _, _ => (s, c)
  end.
End Monitor.

(** *** [minimal_tail_agent.py] *)

(** A row of its table [outbox] (id, timestamp, filename, line, sent). *)
Record mrow := {
  mrow_id : Z;
  mrow_timestamp : string;
  mrow_filename : text;
  mrow_line : text;
  mrow_sent : bool
}.

Record mstore := {
  ms_rows : list mrow;
  ms_seq : Z
}.

Definition mmax_id (rs : list mrow) : Z :=
  fold_right (fun r m => Z.max (mrow_id r) m) 0 rs.

(** [persist_match(filename, line)] with [ts] the timestamp. *)
Definition persist_match (s : mstore) (ts : string) (filename line : text) : mstore :=
  let snippet := take 4000 line in
  let nid := Z.max (ms_seq s) (mmax_id (ms_rows s)) + 1 in
  {| ms_rows := ms_rows s ++ [{| mrow_id := nid; mrow_timestamp := ts;
                                 mrow_filename := filename; mrow_line := snippet;
                                 mrow_sent := false |}];
     ms_seq := nid |}.

(** [re.IGNORECASE] on a literal letter of the default pattern: the code
    points [re] matches it with ([re.fullmatch(p, chr(c), re.I)]); for
    letters outside this table only the letter itself. *)
Definition re_ignorecase_classes : list (list Z) :=
  [[65; 97]; [66; 98]; [67; 99]; [69; 101]; [70; 102]; [73; 105; 304; 305];
   [75; 107; 8490]; [76; 108]; [78; 110]; [79; 111]; [80; 112]; [82; 114];
   [84; 116]; [88; 120]].

Definition re_char_eq (p c : Z) : bool :=
  bool_decide (p = c) ||
  existsb (fun cl => bool_decide (p ∈ cl) && bool_decide (c ∈ cl)) re_ignorecase_classes.

Fixpoint re_prefix (k s : text) : bool :=
  match k, s with
  | [], _ => true
  | p :: k', c :: s' => re_char_eq p c && re_prefix k' s'
  | _ :: _, [] => false
  end.

(** [re.search] of a literal with [re.IGNORECASE]. *)
Fixpoint re_search (s k : text) : bool :=
  re_prefix k s || match s with [] => false | _ :: s' => re_search s' k end.

(** The default [--regex] [(ERROR|CRITICAL|FATAL|Exception|Traceback)]
    compiled with [re.IGNORECASE]: [pat.search(line)] finds a match when
    one of the alternatives matches somewhere in the line. *)
Definition default_pattern (line : text) : bool :=
  existsb (re_search line)
    [T "ERROR"; T "CRITICAL"; T "FATAL"; T "Exception"; T "Traceback"].

(** The inner [while True] loop of [tail_file] over the decoded text [t]
    of the round: read lines until [readline] returns [""], strip the
    newlines, persist the lines the pattern finds a match in; returns the
    store and the offset reached in [t]. *)
Fixpoint tail_inner (pat : text -> bool) (path : text) (ts : string) (fuel : nat)
    (t : text) (i : nat) (s : mstore) : mstore * nat :=
  match fuel with
  | O => (s, i)
  | S fuel' =>
      let '(l, i') := readline t i in
      match l with
      | [] => (s, i)
      | _ =>
          let line := rstrip_nl l in
          let s' := if pat line then persist_match s ts path line else s in
          tail_inner pat path ts fuel' t i' s'
      end
  end.

(** One run of that loop on the file opened with [errors="ignore"] and
    positioned at the byte offset [pos]: the bytes from [pos] to EOF are
    decoded (undecodable bytes dropped) and newline-translated; returns the
    store and [pos = f.tell()] (EOF, or [pos] itself when the file is
    shorter). *)
Definition tail_round (pat : text -> bool) (path : text) (ts : string)
    (content : bytes) (pos : nat) (s : mstore) : mstore * nat :=
  let t := translate_newlines (utf8_decode_ignore (drop pos content)) in
  (fst (tail_inner pat path ts (length t) t 0 s), Nat.max pos (length content)).

(* ------------------------------------------------------------------ *)
(** ** Specification-side notions *)

(** [k] occurs in [line] ignoring case: some segment of [line] upper-cases
    to [k] (the keywords are upper case). *)
Definition ci_occurs (k line : text) : Prop :=
  exists pre mid post, line = pre ++ mid ++ post /\ upper mid = k.

(* ------------------------------------------------------------------ *)
(** ** Classifier lemmas *)

Lemma is_prefix_spec (k s : text) :
  is_prefix k s = true <-> exists post, s = k ++ post.
Proof.
  revert s; induction k as [|c k IH]; intros [|d s]; simpl.
  - split; eauto.
  - split; eauto.
  - split; [discriminate|]. intros [post Hp]; discriminate.
  - rewrite andb_true_iff, bool_decide_eq_true, IH. split.
    + intros [-> [post ->]]. eauto.
    + intros [post Hp]. injection Hp as -> ->. eauto.
Qed.

Lemma contains_spec (s k : text) :
  contains s k = true <-> exists pre post, s = pre ++ k ++ post.
Proof.
  induction s as [|c s IH]; simpl; rewrite orb_true_iff, is_prefix_spec.
  - split.
    + intros [[post Hp]|Hf]; [|discriminate]. exists [], post. exact Hp.
    + intros [pre [post Hp]]. left. destruct pre; simpl in Hp; [eauto|discriminate].
  - rewrite IH. split.
    + intros [[post Hp]|[pre [post Hp]]].
      * exists [], post. exact Hp.
      * exists (c :: pre), post. rewrite Hp. reflexivity.
    + intros [[|c' pre] [post Hp]]; simpl in Hp.
      * left. eauto.
      * right. injection Hp as -> Hp. eauto.
Qed.

Lemma upper_app (a b : text) : upper (a ++ b) = upper a ++ upper b.
Proof. unfold upper. by rewrite map_app, concat_app. Qed.

(** Every case-insensitive occurrence of [k] is found in [line.upper()]. *)
Lemma ci_occurs_found (line k : text) :
  ci_occurs k line -> contains (upper line) k = true.
Proof.
  intros [pre [mid [post [-> Hmid]]]]. apply contains_spec.
  exists (upper pre), (upper post). by rewrite !upper_app, Hmid.
Qed.

Lemma scan_levels_spec (lvls : list text) (up : text) :
  (exists i k, nth_error lvls i = Some k /\ contains up k = true /\
     (forall j k', (j < i)%nat -> nth_error lvls j = Some k' -> contains up k' = false) /\
     scan_levels lvls up = k)
  \/ ((forall k, In k lvls -> contains up k = false) /\ scan_levels lvls up = T "INFO").
Proof.
  induction lvls as [|l ls IH]; simpl.
  - right. split; [intros _ []|reflexivity].
  - destruct (contains up l) eqn:Hl.
    + left. exists O, l. repeat split; auto. intros j k' Hj. lia.
    + destruct IH as [[i [k [Hi [Hk [Hbefore Hs]]]]]|[Hnone Hs]].
      * left. exists (S i), k. repeat split; auto.
        intros [|j] k' Hj Hk'; simpl in Hk'.
        -- injection Hk' as <-. exact Hl.
        -- apply (Hbefore j); [lia|exact Hk'].
      * right. split; [|exact Hs]. intros k [<-|Hk]; auto.
Qed.

Lemma scan_levels_in (up : text) :
  In (scan_levels levels up) (T "INFO" :: levels).
Proof.
  unfold levels; simpl.
  repeat match goal with |- context [if ?b then _ else _] => destruct b end;
    simpl; tauto.
Qed.

Lemma parse_log_line_some (eid ts : string) (line0 m : text) :
  rstrip_nl line0 = m -> m <> [] ->
  parse_log_line eid ts line0 =
    Some {| ev_event_id := eid; ev_timestamp := ts; ev_message := m;
            ev_severity := scan_levels levels (upper m) |}.
Proof.
  intros Hm Hne. unfold parse_log_line. rewrite Hm.
  destruct m; [congruence|reflexivity].
Qed.

(* ------------------------------------------------------------------ *)
(** ** Claims about the classifier *)

(** C5: a line that is non-empty once its trailing newlines are removed
    is classified; the case-insensitive substring test is Python's
    [level in line.upper()], which finds every case-insensitive occurrence
    (a segment of the line that upper-cases to the keyword) and also those
    [str.upper] creates (["warn" + chr(305) + "ng"] upper-cases to WARNING).
    The severity is the first of CRITICAL, FATAL, ERROR, WARNING, WARN that
    occurs in the upper-cased line, and INFO when none occurs. In particular
    a line containing ERROR and WARNING (and neither CRITICAL nor FATAL,
    which take precedence) is ERROR. *)
Theorem parse_log_line_first_match (eid ts : string) (line0 : text) :
  rstrip_nl line0 <> [] ->
  exists e, parse_log_line eid ts line0 = Some e /\
    ev_message e = rstrip_nl line0 /\
    ((exists i k, nth_error levels i = Some k /\ contains (upper (ev_message e)) k = true /\
        (forall j k', (j < i)%nat -> nth_error levels j = Some k' ->
                      contains (upper (ev_message e)) k' = false) /\
        ev_severity e = k)
     \/ ((forall k, In k levels -> contains (upper (ev_message e)) k = false) /\
         ev_severity e = T "INFO")) /\
    (forall k, ci_occurs k (ev_message e) -> contains (upper (ev_message e)) k = true) /\
    (ci_occurs (T "ERROR") (ev_message e) -> ci_occurs (T "WARNING") (ev_message e) ->
     contains (upper (ev_message e)) (T "CRITICAL") = false ->
     contains (upper (ev_message e)) (T "FATAL") = false ->
     ev_severity e = T "ERROR").
Proof.
  intros Hne. rewrite (parse_log_line_some eid ts line0 (rstrip_nl line0) eq_refl Hne).
  eexists; split; [reflexivity|]; cbn [ev_message ev_severity].
  generalize (rstrip_nl line0). intros m.
  split; [reflexivity|]. split; [|split; [apply ci_occurs_found|]].
  - destruct (scan_levels_spec levels (upper m))
      as [[i [k [Hi [Hk [Hbefore Hs]]]]]|[Hnone Hs]].
    + left. exists i, k. auto.
    + right. auto.
  - intros He%ci_occurs_found _ Hc Hf. unfold levels; cbn [scan_levels].
    rewrite Hc, Hf, He. reflexivity.
Qed.

(** C6 (as stated: the severity is one of CRITICAL, FATAL, ERROR, WARNING,
    INFO) fails: a line whose only keyword is "warn" is classified with
    severity WARN. *)
Lemma parse_log_line_warn_severity :
  exists e, parse_log_line "id" "ts" (T "disk warn") = Some e /\
    ev_severity e = T "WARN" /\
    ~ In (ev_severity e) [T "CRITICAL"; T "FATAL"; T "ERROR"; T "WARNING"; T "INFO"].
Proof.
  eexists; split; [vm_compute; reflexivity|]. split; [vm_compute; reflexivity|].
  vm_compute. intuition discriminate.
Qed.

(** C6 (amended): every severity the classifier produces is one of
    CRITICAL, FATAL, ERROR, WARNING, WARN, INFO; a line whose first
    matching keyword is WARN (WARN occurs in the upper-cased line, none of
    CRITICAL, FATAL, ERROR, WARNING does) gets severity WARN, which is not
    in the enumeration {CRITICAL, FATAL, ERROR, WARNING, INFO}. *)
Theorem parse_log_line_severity_range (eid ts : string) (line0 : text) (e : event) :
  parse_log_line eid ts line0 = Some e ->
  In (ev_severity e) [T "CRITICAL"; T "FATAL"; T "ERROR"; T "WARNING"; T "WARN"; T "INFO"] /\
  (contains (upper (ev_message e)) (T "WARN") = true ->
   (forall k, In k [T "CRITICAL"; T "FATAL"; T "ERROR"; T "WARNING"] ->
              contains (upper (ev_message e)) k = false) ->
   ev_severity e = T "WARN" /\
   ~ In (ev_severity e) [T "CRITICAL"; T "FATAL"; T "ERROR"; T "WARNING"; T "INFO"]).
Proof.
  unfold parse_log_line. destruct (rstrip_nl line0) as [|c m]; [discriminate|].
  intros H; injection H as <-. cbn [ev_severity ev_message]. split.
  - pose proof (scan_levels_in (upper (c :: m))) as Hin.
    unfold levels in Hin. cbn [In] in Hin |- *. tauto.
  - intros Hw Hnone. unfold levels. cbn [scan_levels].
    rewrite (Hnone (T "CRITICAL")), (Hnone (T "FATAL")), (Hnone (T "ERROR")),
      (Hnone (T "WARNING")), Hw by (cbn [In]; tauto).
    split; [reflexivity|]. vm_compute. intuition discriminate.
Qed.

Lemma parse_log_line_severity_range_witness :
  parse_log_line "id" "ts" (T "disk warn") =
    Some {| ev_event_id := "id"; ev_timestamp := "ts"; ev_message := T "disk warn";
            ev_severity := T "WARN" |} /\
  In (T "WARN") [T "CRITICAL"; T "FATAL"; T "ERROR"; T "WARNING"; T "WARN"; T "INFO"] /\
  (contains (upper (T "disk warn")) (T "WARN") = true ->
   (forall k, In k [T "CRITICAL"; T "FATAL"; T "ERROR"; T "WARNING"] ->
              contains (upper (T "disk warn")) k = false) ->
   T "WARN" = T "WARN" /\
   ~ In (T "WARN") [T "CRITICAL"; T "FATAL"; T "ERROR"; T "WARNING"; T "INFO"]).
Proof.
  assert (H : parse_log_line "id" "ts" (T "disk warn") =
    Some {| ev_event_id := "id"; ev_timestamp := "ts"; ev_message := T "disk warn";
            ev_severity := T "WARN" |}) by (vm_compute; reflexivity).
  split; [exact H|].
  exact (parse_log_line_severity_range "id" "ts" (T "disk warn") _ H).
Defined.

(** The line "disk warn" followed by U+0131 (dotless i) and "ng", which
    [str.upper] turns into "DISK WARNING". *)
Definition line_dotless_i : text := T "disk warn" ++ [305] ++ T "ng".

Lemma parse_log_line_first_match_witness :
  rstrip_nl line_dotless_i <> [] /\
  exists e, parse_log_line "id" "ts" line_dotless_i = Some e /\
    ev_severity e = T "WARNING".
Proof.
  assert (Hne : rstrip_nl line_dotless_i <> []) by (vm_compute; discriminate).
  split; [exact Hne|].
  destruct (parse_log_line_first_match "id" "ts" _ Hne) as [e [He _]].
  exists e. split; [exact He|].
  vm_compute in He. injection He as <-. reflexivity.
Defined.

(* ------------------------------------------------------------------ *)
(** ** Outbox lemmas *)

(** The UNIQUE constraint on [event_id], as an invariant of the store. *)
Definition unique_event_ids (s : outbox) : Prop := NoDup (map row_event_id (ob_rows s)).

Definition count_event_id (s : outbox) (eid : string) : nat :=
  length (filter (fun r => row_event_id r = eid) (ob_rows s)).

(** No row disappears or changes identity, and no [sent] flag goes from
    true back to false. *)
Definition sent_monotone (s s' : outbox) : Prop :=
  forall r, r ∈ ob_rows s -> exists r', r' ∈ ob_rows s' /\ row_id r' = row_id r /\
    row_event_id r' = row_event_id r /\ (row_sent r = true -> row_sent r' = true).

Lemma has_event_id_spec (rs : list row) (eid : string) :
  has_event_id rs eid = true <-> eid ∈ map row_event_id rs.
Proof.
  unfold has_event_id. rewrite existsb_exists, list_elem_of_In, in_map_iff.
  split.
  - intros [r [Hr Heq]]. apply bool_decide_eq_true in Heq. eauto.
  - intros [r [Heq Hr]]. exists r. split; [exact Hr|]. by apply bool_decide_eq_true.
Qed.

Lemma count_absent (rs : list row) (eid : string) :
  eid ∉ map row_event_id rs ->
  length (filter (fun r => row_event_id r = eid) rs) = 0%nat.
Proof.
  induction rs as [|r rs IH]; simpl; intros Hnin; [done|].
  rewrite filter_cons, decide_False.
  - apply IH. intros H. apply Hnin. by apply elem_of_cons; right.
  - intros <-. apply Hnin. by apply elem_of_cons; left.
Qed.

Lemma count_unique (rs : list row) (eid : string) :
  NoDup (map row_event_id rs) -> eid ∈ map row_event_id rs ->
  length (filter (fun r => row_event_id r = eid) rs) = 1%nat.
Proof.
  induction rs as [|r rs IH]; simpl; intros Hnd Hin.
  - by apply not_elem_of_nil in Hin.
  - apply NoDup_cons in Hnd as [Hnotin Hnd]. rewrite filter_cons.
    apply elem_of_cons in Hin as [->|Hin].
    + rewrite decide_True by reflexivity. simpl. f_equal.
      by apply count_absent.
    + rewrite decide_False; [by apply IH|]. intros <-. done.
Qed.

Lemma mark_sent_event_ids (s : outbox) (ids : list string) :
  map row_event_id (ob_rows (mark_sent s ids)) = map row_event_id (ob_rows s).
Proof.
  destruct ids as [|i ids]; [reflexivity|]. simpl.
  rewrite map_map. apply map_ext. intros r. by case_bool_decide.
Qed.

Lemma mark_sent_rows (s : outbox) (ids : list string) :
  ids <> [] ->
  ob_rows (mark_sent s ids) =
    map (fun r => if bool_decide (row_event_id r ∈ ids) then set_sent r else r) (ob_rows s)
  /\ ob_seq (mark_sent s ids) = ob_seq s.
Proof. destruct ids; [congruence|done]. Qed.

Lemma mark_sent_monotone (s : outbox) (ids : list string) :
  sent_monotone s (mark_sent s ids).
Proof.
  intros r Hr. destruct ids as [|i ids].
  - exists r. auto.
  - simpl. exists (if bool_decide (row_event_id r ∈ i :: ids) then set_sent r else r).
    split; [apply list_elem_of_fmap; eauto|].
    case_bool_decide; simpl; auto.
Qed.

Lemma sent_monotone_refl (s : outbox) : sent_monotone s s.
Proof. intros r Hr. exists r. auto. Qed.

Lemma persist_log_cases (s : outbox) (e : event) :
  (ev_event_id e ∈ map row_event_id (ob_rows s) /\
   persist_log s e = (s, DuplicateSkipped (ev_event_id e)))
  \/ ((ev_event_id e ∉ map row_event_id (ob_rows s)) /\
      (let nid := Z.max (ob_seq s) (max_id (ob_rows s)) + 1 in
      persist_log s e =
        ({| ob_rows := ob_rows s ++
              [{| row_id := nid; row_event_id := ev_event_id e;
                  row_timestamp := ev_timestamp e; row_message := ev_message e;
                  row_severity := ev_severity e; row_sent := false |}];
            ob_seq := nid |}, Persisted (ev_event_id e) (ev_message e)))).
Proof.
  unfold persist_log. destruct (has_event_id (ob_rows s) (ev_event_id e)) eqn:H.
  - left. split; [by apply has_event_id_spec|reflexivity].
  - right. split; [|reflexivity]. intros Hin. apply has_event_id_spec in Hin. congruence.
Qed.

Lemma persist_log_invariants (s : outbox) (e : event) :
  unique_event_ids s ->
  unique_event_ids (fst (persist_log s e)) /\ sent_monotone s (fst (persist_log s e)).
Proof.
  intros Hu. destruct (persist_log_cases s e) as [[_ ->]|[Hnin ->]]; simpl.
  - split; [exact Hu|apply sent_monotone_refl].
  - split.
    + unfold unique_event_ids; simpl. rewrite map_app. simpl.
      apply NoDup_app. repeat split; [exact Hu| |apply NoDup_singleton].
      intros x Hx Hx'. apply list_elem_of_singleton in Hx'. subst. done.
    + intros r Hr. exists r. split; [simpl; apply elem_of_app; by left|auto].
Qed.

Lemma sql_limit_sub {A} (lim : Z) (l : list A) (x : A) :
  x ∈ sql_limit lim l -> x ∈ l.
Proof.
  unfold sql_limit. destruct (lim <? 0); [done|].
  rewrite elem_of_take. intros [i [Hi _]]. by eapply list_elem_of_lookup_2.
Qed.

Lemma fetch_unsent_rows_sub (s : outbox) (lim : Z) (r : row) :
  r ∈ fetch_unsent_rows s lim -> r ∈ ob_rows s /\ row_sent r = false.
Proof.
  unfold fetch_unsent_rows. intros Hr. apply sql_limit_sub in Hr.
  rewrite (merge_sort_Permutation id_le) in Hr.
  apply list_elem_of_filter in Hr as [Hs Hr]. done.
Qed.

Lemma send_batch_failed (insert_many : coll -> list doc -> coll * insert_outcome)
    (c c' : coll) (docs : list doc) (succ failed : list string) :
  send_batch_to_mongo insert_many c docs = (c', Returned succ failed) ->
  forall e, e ∈ failed -> e ∈ map d_event_id docs /\ e ∉ succ.
Proof.
  unfold send_batch_to_mongo. destruct docs as [|d ds].
  { intros H; injection H as _ _ <-. intros e He. by apply not_elem_of_nil in He. }
  destruct (insert_many c (d :: ds)) as [c1 [| |]].
  - intros H; injection H as _ _ <-. intros e He. by apply not_elem_of_nil in He.
  - destruct (mongo_find c1 _) as [found|]; [|discriminate].
    intros H; injection H as _ <- <-. intros e He.
    apply list_elem_of_filter in He as [Hnf He]. split; [exact He|].
    intros Hs. apply list_elem_of_filter in Hs as [Hf _]. done.
  - discriminate.
Qed.

Lemma event_ids_of_docs (now : string) (rows : list row) :
  map d_event_id (map (doc_of_tuple now) (map row_tuple rows)) = map row_event_id rows.
Proof. induction rows as [|r rows IH]; simpl; [done|by rewrite IH]. Qed.

(** What a flush that got a [(succeeded, failed)] pair back did. *)
Lemma flush_outbox_done (insert_many : coll -> list doc -> coll * insert_outcome)
    (bs : Z) (now : string) (s s' : outbox) (c c' : coll) (batch succ failed : list string) :
  flush_outbox insert_many bs now s c = (s', c', FlushDone batch succ failed) ->
  batch = map row_event_id (fetch_unsent_rows s bs) /\
  send_batch_to_mongo insert_many c
    (map (doc_of_tuple now) (map row_tuple (fetch_unsent_rows s bs))) = (c', Returned succ failed) /\
  s' = match succ with [] => s | _ => mark_sent s succ end.
Proof.
  unfold flush_outbox, fetch_unsent. cbn iota beta.
  destruct (map row_tuple (fetch_unsent_rows s bs)) as [|t ts] eqn:Hrows; [discriminate|].
  rewrite <- Hrows, event_ids_of_docs.
  destruct (send_batch_to_mongo insert_many c _) as [c1 [succ1 failed1|]]; [|discriminate].
  intros H; injection H as <- <- <- <- <-. done.
Qed.

(** Whatever a flush does to the store is a [mark_sent] or nothing. *)
Lemma flush_outbox_store (insert_many : coll -> list doc -> coll * insert_outcome)
    (bs : Z) (now : string) (s : outbox) (c : coll) :
  fst (fst (flush_outbox insert_many bs now s c)) = s \/
  exists ids, fst (fst (flush_outbox insert_many bs now s c)) = mark_sent s ids.
Proof.
  unfold flush_outbox, fetch_unsent. cbn iota beta.
  destruct (map row_tuple (fetch_unsent_rows s bs)) as [|t ts]; [by left|].
  destruct (send_batch_to_mongo insert_many c _) as [c1 [[|i succ1] failed1|]];
    [by left|right; eexists; reflexivity|by left].
Qed.

Lemma lookup_map {A B} (f : A -> B) (l : list A) (i : nat) :
  map f l !! i = option_map f (l !! i).
Proof. revert i; induction l as [|x l IH]; intros [|i]; simpl; auto. Qed.

Lemma unique_row (rs : list row) (i : nat) (r r0 : row) :
  NoDup (map row_event_id rs) -> rs !! i = Some r -> r0 ∈ rs ->
  row_event_id r0 = row_event_id r -> r0 = r.
Proof.
  intros Hnd Hi Hr0 Heq. apply list_elem_of_lookup in Hr0 as [j Hj].
  assert (i = j) as <-.
  { apply (NoDup_lookup _ _ _ (row_event_id r) Hnd).
    - by rewrite lookup_map, Hi.
    - rewrite lookup_map, Hj. simpl. by rewrite Heq. }
  congruence.
Qed.

(** The store steps of the outbox: the four operations of the module. *)
Inductive store_step : outbox -> outbox -> Prop :=
  | Step_persist s e : store_step s (fst (persist_log s e))
  | Step_fetch s lim : store_step s (fst (fetch_unsent s lim))
  | Step_mark s ids : store_step s (mark_sent s ids)
  | Step_flush insert_many bs now s c :
      store_step s (fst (fst (flush_outbox insert_many bs now s c))).

Lemma store_step_preserves (s s' : outbox) :
  store_step s s' -> unique_event_ids s -> unique_event_ids s' /\ sent_monotone s s'.
Proof.
  intros Hstep Hu. destruct Hstep as [s e|s lim|s ids|im bs now s c].
  - by apply persist_log_invariants.
  - split; [exact Hu|apply sent_monotone_refl].
  - split; [unfold unique_event_ids; by rewrite mark_sent_event_ids|apply mark_sent_monotone].
  - destruct (flush_outbox_store im bs now s c) as [->|[ids ->]].
    + split; [exact Hu|apply sent_monotone_refl].
    + split; [unfold unique_event_ids; by rewrite mark_sent_event_ids|apply mark_sent_monotone].
Qed.

Lemma rtc_store_step_unique (s s' : outbox) :
  rtc store_step s s' -> unique_event_ids s -> unique_event_ids s'.
Proof.
  induction 1 as [s|s1 s2 s3 H12 _ IH]; intros Hu; [exact Hu|].
  apply IH. by apply (store_step_preserves s1 s2).
Qed.

(** The remote collection, empty, unreachable or reachable. *)
Definition remote_down : coll := {| c_docs := []; c_up := false |}.
Definition remote_up : coll := {| c_docs := []; c_up := true |}.

(** A store reached from the empty one by two [persist_log] and one
    [mark_sent]: two rows, the first one sent. *)
Definition demo_event (eid : string) (msg : string) : event :=
  {| ev_event_id := eid; ev_timestamp := "t"; ev_message := T msg;
     ev_severity := T "ERROR" |}.

Definition reached_s1 : outbox := fst (persist_log empty_outbox (demo_event "e1" "disk ERROR")).
Definition reached_s2 : outbox := fst (persist_log reached_s1 (demo_event "e2" "db ERROR")).
Definition reached_store : outbox := mark_sent reached_s2 ["e1"].

(* ------------------------------------------------------------------ *)
(** ** Claims about the outbox store *)

(** C2: on a store whose event ids are unique (the UNIQUE constraint),
    appending an event whose [event_id] is present returns the store
    unchanged and reports the skipped duplicate (no exception), and the
    store keeps exactly one record with that [event_id]; appending an event
    whose [event_id] is absent adds exactly one new record, with
    [sent = false], carrying the event's fields. *)
Theorem persist_log_append (s : outbox) (e : event) :
  unique_event_ids s ->
  ((ev_event_id e ∈ map row_event_id (ob_rows s)) ->
     persist_log s e = (s, DuplicateSkipped (ev_event_id e)) /\
     count_event_id s (ev_event_id e) = 1%nat)
  /\ ((ev_event_id e ∉ map row_event_id (ob_rows s)) ->
     exists r, persist_log s e =
       ({| ob_rows := ob_rows s ++ [r]; ob_seq := row_id r |},
        Persisted (ev_event_id e) (ev_message e)) /\
       row_event_id r = ev_event_id e /\ row_sent r = false /\
       row_timestamp r = ev_timestamp e /\ row_message r = ev_message e /\
       row_severity r = ev_severity e /\
       count_event_id (fst (persist_log s e)) (ev_event_id e) = 1%nat).
Proof.
  intros Hu. split.
  - intros Hin. destruct (persist_log_cases s e) as [[_ Hp]|[Hnin _]]; [|done].
    split; [exact Hp|]. by apply count_unique.
  - intros Hnin. destruct (persist_log_cases s e) as [[Hin _]|[_ Hp]]; [done|].
    rewrite Hp. cbv zeta.
    exists {| row_id := Z.max (ob_seq s) (max_id (ob_rows s)) + 1;
              row_event_id := ev_event_id e; row_timestamp := ev_timestamp e;
              row_message := ev_message e; row_severity := ev_severity e;
              row_sent := false |}.
    split; [reflexivity|]. simpl.
    repeat split. unfold count_event_id; simpl.
    rewrite filter_app, length_app, count_absent by exact Hnin.
    simpl. rewrite filter_cons_True by reflexivity. reflexivity.
Qed.

Lemma persist_log_append_witness :
  unique_event_ids empty_outbox /\
  count_event_id
    (fst (persist_log (fst (persist_log empty_outbox
       {| ev_event_id := "a"; ev_timestamp := "t"; ev_message := T "x"; ev_severity := T "INFO" |}))
       {| ev_event_id := "a"; ev_timestamp := "t2"; ev_message := T "y"; ev_severity := T "INFO" |}))
    "a" = 1%nat.
Proof.
  set (e1 := {| ev_event_id := "a"; ev_timestamp := "t"; ev_message := T "x"; ev_severity := T "INFO" |}).
  set (e2 := {| ev_event_id := "a"; ev_timestamp := "t2"; ev_message := T "y"; ev_severity := T "INFO" |}).
  assert (H0 : unique_event_ids empty_outbox) by constructor.
  split; [exact H0|].
  assert (H1 : unique_event_ids (fst (persist_log empty_outbox e1)))
    by (unfold unique_event_ids; vm_compute; repeat constructor; set_solver).
  destruct (persist_log_append (fst (persist_log empty_outbox e1)) e2 H1) as [Hdup _].
  assert (Hin : ev_event_id e2 ∈ map row_event_id (ob_rows (fst (persist_log empty_outbox e1))))
    by (vm_compute; left).
  destruct (Hdup Hin) as [-> Hc]. exact Hc.
Defined.

(** C3: from any state reachable from the empty store by the store
    operations ([persist_log], [fetch_unsent], [mark_sent],
    [flush_outbox]), every further operation keeps [event_id]s unique and
    never turns a [sent] flag from true back to false (nor drops or
    re-identifies a record). *)
Theorem store_ops_preserve_invariants (s s' : outbox) :
  rtc store_step empty_outbox s -> store_step s s' ->
  unique_event_ids s' /\ sent_monotone s s'.
Proof.
  intros Hr Hstep. apply store_step_preserves; [exact Hstep|].
  apply (rtc_store_step_unique empty_outbox); [exact Hr|constructor].
Qed.

Lemma store_ops_preserve_invariants_witness :
  rtc store_step empty_outbox reached_store /\
  map row_sent (ob_rows reached_store) = [true; false] /\
  unique_event_ids (fst (fst (flush_outbox mongo_insert_many 5 "now" reached_store remote_up))) /\
  sent_monotone reached_store
    (fst (fst (flush_outbox mongo_insert_many 5 "now" reached_store remote_up))).
Proof.
  assert (Hr : rtc store_step empty_outbox reached_store).
  { exact (rtc_l _ _ _ _ (Step_persist empty_outbox (demo_event "e1" "disk ERROR"))
            (rtc_l _ _ _ _ (Step_persist reached_s1 (demo_event "e2" "db ERROR"))
              (rtc_l _ _ _ _ (Step_mark reached_s2 ["e1"]) (rtc_refl _ _)))). }
  split; [exact Hr|]. split; [vm_compute; reflexivity|].
  exact (store_ops_preserve_invariants reached_store _ Hr
           (Step_flush mongo_insert_many 5 "now" reached_store remote_up)).
Defined.

(** C8: when a flush gets a [(succeeded, failed)] pair back, every record
    whose [event_id] is in [failed] is left exactly as it was (and it is
    unsent), records whose [event_id] is not in [succeeded] are unchanged,
    and a record whose [event_id] is in [succeeded] only has its [sent]
    flag set; no record is added or removed and the counter is untouched. *)
Theorem flush_outbox_failed_untouched
    (insert_many : coll -> list doc -> coll * insert_outcome)
    (bs : Z) (now : string) (s s' : outbox) (c c' : coll) (batch succ failed : list string) :
  unique_event_ids s ->
  flush_outbox insert_many bs now s c = (s', c', FlushDone batch succ failed) ->
  ob_seq s' = ob_seq s /\ length (ob_rows s') = length (ob_rows s) /\
  (forall i r, ob_rows s !! i = Some r -> row_event_id r ∈ failed ->
     ob_rows s' !! i = Some r /\ row_sent r = false) /\
  (forall i r, ob_rows s !! i = Some r -> row_event_id r ∉ succ ->
     ob_rows s' !! i = Some r) /\
  (forall i r, ob_rows s !! i = Some r -> row_event_id r ∈ succ ->
     ob_rows s' !! i = Some (set_sent r)).
Proof.
  intros Hu Hflush.
  destruct (flush_outbox_done _ _ _ _ _ _ _ _ _ _ Hflush) as [Hbatch [Hsend Hs']].
  pose proof (send_batch_failed _ _ _ _ _ _ Hsend) as Hfailed.
  rewrite event_ids_of_docs in Hfailed.
  (* a failed record is the unsent row fetched for the batch *)
  assert (Hunsent : forall i r, ob_rows s !! i = Some r -> row_event_id r ∈ failed ->
            row_sent r = false /\ row_event_id r ∉ succ).
  { intros i r Hi Hf. destruct (Hfailed _ Hf) as [Hb Hns]. split; [|exact Hns].
    apply list_elem_of_In, in_map_iff in Hb as [r0 [Heq Hr0]].
    apply list_elem_of_In, fetch_unsent_rows_sub in Hr0 as [Hr0 Hsent].
    rewrite <- (unique_row (ob_rows s) i r r0 Hu Hi Hr0 Heq). exact Hsent. }
  destruct succ as [|x succ'].
  - subst s'. split; [reflexivity|]. split; [reflexivity|]. split; [|split].
    + intros i r Hi Hf. split; [exact Hi|exact (proj1 (Hunsent i r Hi Hf))].
    + intros i r Hi _. exact Hi.
    + intros i r _ Hin. by apply not_elem_of_nil in Hin.
  - destruct (mark_sent_rows s (x :: succ')) as [Hrows Hseq]; [discriminate|].
    subst s'. rewrite Hrows, Hseq.
    assert (Hout : forall i r, ob_rows s !! i = Some r -> row_event_id r ∉ x :: succ' ->
              map (fun r => if bool_decide (row_event_id r ∈ x :: succ') then set_sent r else r)
                (ob_rows s) !! i = Some r).
    { intros i r Hi Hn. rewrite lookup_map, Hi. simpl. by rewrite bool_decide_eq_false_2. }
    split; [reflexivity|]. split; [|split; [|split]].
    + by rewrite length_map.
    + intros i r Hi Hf. split; [|exact (proj1 (Hunsent i r Hi Hf))].
      apply Hout; [exact Hi|]. exact (proj2 (Hunsent i r Hi Hf)).
    + exact Hout.
    + intros i r Hi Hin. rewrite lookup_map, Hi. simpl. by rewrite bool_decide_eq_true_2.
Qed.

(** A remote that rejects every document of a bulk insert. *)
Definition reject_all (c : coll) (docs : list doc) : coll * insert_outcome :=
  (c, BulkWriteError).

Definition outbox_two : outbox :=
  {| ob_rows :=
       [{| row_id := 1; row_event_id := "a"; row_timestamp := "t"; row_message := T "x";
           row_severity := T "INFO"; row_sent := false |};
        {| row_id := 2; row_event_id := "b"; row_timestamp := "t"; row_message := T "y";
           row_severity := T "INFO"; row_sent := false |}];
     ob_seq := 2 |}.

Definition coll_with_a : coll :=
  {| c_docs := [{| d_event_id := "a"; d_timestamp := "t"; d_message := T "x";
                   d_severity := T "INFO"; d_captured_at := "t0" |}];
     c_up := true |}.

Lemma flush_outbox_failed_untouched_witness :
  unique_event_ids outbox_two /\
  flush_outbox reject_all 5 "now" outbox_two coll_with_a =
    (fst (fst (flush_outbox reject_all 5 "now" outbox_two coll_with_a)), coll_with_a,
     FlushDone ["a"; "b"] ["a"] ["b"]) /\
  ob_rows (fst (fst (flush_outbox reject_all 5 "now" outbox_two coll_with_a))) !! 1%nat =
    ob_rows outbox_two !! 1%nat.
Proof.
  assert (Hu : unique_event_ids outbox_two)
    by (unfold unique_event_ids; vm_compute; repeat constructor; set_solver).
  assert (Hf : flush_outbox reject_all 5 "now" outbox_two coll_with_a =
    (fst (fst (flush_outbox reject_all 5 "now" outbox_two coll_with_a)), coll_with_a,
     FlushDone ["a"; "b"] ["a"] ["b"])) by (vm_compute; reflexivity).
  split; [exact Hu|]. split; [exact Hf|].
  destruct (flush_outbox_failed_untouched _ _ _ _ _ _ _ _ _ _ Hu Hf)
    as [_ [_ [Hfail _]]].
  assert (H1 : ob_rows outbox_two !! 1%nat =
            Some {| row_id := 2; row_event_id := "b"; row_timestamp := "t"; row_message := T "y";
                    row_severity := T "INFO"; row_sent := false |}) by reflexivity.
  rewrite H1. apply (Hfail 1%nat _ H1). simpl. set_solver.
Defined.

(* ------------------------------------------------------------------ *)
(** ** Claim about [send_batch_to_mongo] *)

Lemma elem_of_map_iff {A B} (f : A -> B) (l : list A) (y : B) :
  y ∈ map f l <-> exists x, y = f x /\ x ∈ l.
Proof.
  rewrite list_elem_of_In, in_map_iff. split.
  - intros [x [<- Hx]]. exists x. split; [done|by apply list_elem_of_In].
  - intros [x [-> Hx]]. exists x. split; [done|by apply list_elem_of_In].
Qed.

Lemma found_spec (c : coll) (ids : list string) (e : string) :
  e ∈ map d_event_id (filter (fun d => d_event_id d ∈ ids) (c_docs c)) <->
  e ∈ ids /\ present c e.
Proof.
  unfold present. rewrite !elem_of_map_iff. split.
  - intros [d [-> Hd]]. apply list_elem_of_filter in Hd as [Hin Hd]. eauto.
  - intros [Hin [d [-> Hd]]]. exists d. split; [done|]. by apply list_elem_of_filter.
Qed.

(** C1: for a non-empty batch, [send_batch_to_mongo] either reports every
    [event_id] succeeded and none failed (the bulk insert succeeded), or,
    after a [BulkWriteError], queries the collection and returns the batch's
    [event_id]s split into those now present remotely (succeeded) and the
    rest (failed), without raising; any other error, including the
    reconciliation query failing because the server is unreachable, is
    raised. *)
Theorem send_batch_to_mongo_outcomes
    (insert_many : coll -> list doc -> coll * insert_outcome)
    (c c1 : coll) (docs : list doc) (out : insert_outcome) :
  docs <> [] -> insert_many c docs = (c1, out) ->
  (out = InsertOk ->
     send_batch_to_mongo insert_many c docs = (c1, Returned (map d_event_id docs) []))
  /\ (out = BulkWriteError -> c_up c1 = true ->
     exists succ failed,
       send_batch_to_mongo insert_many c docs = (c1, Returned succ failed) /\
       succ ++ failed ≡ₚ map d_event_id docs /\
       (forall e, e ∈ succ <-> e ∈ map d_event_id docs /\ present c1 e) /\
       (forall e, e ∈ failed <-> e ∈ map d_event_id docs /\ ~ present c1 e))
  /\ (out = BulkWriteError -> c_up c1 = false ->
     send_batch_to_mongo insert_many c docs = (c1, Raised))
  /\ (out = OtherError -> send_batch_to_mongo insert_many c docs = (c1, Raised)).
Proof.
  intros Hne Hins. unfold send_batch_to_mongo.
  destruct docs as [|d ds]; [congruence|]. rewrite Hins.
  split; [|split; [|split]].
  - intros ->. reflexivity.
  - intros -> Hup. unfold mongo_find. rewrite Hup.
    eexists _, _. split; [reflexivity|]. split; [apply filter_app_complement|].
    split.
    + intros e. rewrite list_elem_of_filter, found_spec. tauto.
    + intros e. rewrite list_elem_of_filter, found_spec. tauto.
  - intros -> Hdown. unfold mongo_find. rewrite Hdown. reflexivity.
  - intros ->. reflexivity.
Qed.

Definition doc_a : doc :=
  {| d_event_id := "a"; d_timestamp := "t"; d_message := T "x";
     d_severity := T "INFO"; d_captured_at := "t0" |}.
Definition doc_b : doc :=
  {| d_event_id := "b"; d_timestamp := "t"; d_message := T "y";
     d_severity := T "ERROR"; d_captured_at := "t0" |}.

Lemma send_batch_to_mongo_outcomes_witness :
  [doc_a; doc_b] <> [] /\
  mongo_insert_many coll_with_a [doc_a; doc_b] =
    ({| c_docs := [doc_a; doc_b]; c_up := true |}, BulkWriteError) /\
  exists succ failed,
    send_batch_to_mongo mongo_insert_many coll_with_a [doc_a; doc_b] =
      ({| c_docs := [doc_a; doc_b]; c_up := true |}, Returned succ failed) /\
    succ ++ failed ≡ₚ ["a"; "b"].
Proof.
  assert (Hne : [doc_a; doc_b] <> []) by discriminate.
  assert (Hins : mongo_insert_many coll_with_a [doc_a; doc_b] =
    ({| c_docs := [doc_a; doc_b]; c_up := true |}, BulkWriteError)) by (vm_compute; reflexivity).
  split; [exact Hne|]. split; [exact Hins|].
  destruct (send_batch_to_mongo_outcomes _ _ _ _ _ Hne Hins) as [_ [Hbulk _]].
  destruct (Hbulk eq_refl eq_refl) as [succ [failed [Hs [Hp _]]]].
  exists succ, failed. split; [exact Hs|exact Hp].
Defined.

(* ------------------------------------------------------------------ *)
(** ** Claim about [fetch_unsent] *)

#[global] Instance id_le_total : Total id_le.
Proof. intros r1 r2. unfold id_le. lia. Qed.
#[global] Instance id_le_trans : Transitive id_le.
Proof. intros r1 r2 r3. unfold id_le. lia. Qed.


Lemma fetch_unsent_rows_split (s : outbox) (lim : Z) :
  0 <= lim ->
  (exists rest, fetch_unsent_rows s lim ++ rest ≡ₚ filter (fun r => row_sent r = false) (ob_rows s)) /\
  length (fetch_unsent_rows s lim) =
    Nat.min (Z.to_nat lim) (length (filter (fun r => row_sent r = false) (ob_rows s))).
Proof.
  intros Hlim. set (U := filter (fun r => row_sent r = false) (ob_rows s)).
  assert (HP : merge_sort id_le U ≡ₚ U) by apply merge_sort_Permutation.
  assert (Hrows : fetch_unsent_rows s lim = take (Z.to_nat lim) (merge_sort id_le U)).
  { unfold fetch_unsent_rows, sql_limit. destruct (Z.ltb_spec lim 0); [lia|reflexivity]. }
  rewrite Hrows. split.
  - exists (drop (Z.to_nat lim) (merge_sort id_le U)). by rewrite take_drop.
  - by rewrite length_take, HP.
Qed.



(* ------------------------------------------------------------------ *)
(** ** The concrete delivery scenario *)

Definition scenario_ids : list string :=
  ["e1"; "e2"; "e3"; "e4"; "e5"; "e6"; "e7"; "e8"; "e9"; "e10"; "e11"; "e12"].

Definition scenario_event (eid : string) : event :=
  {| ev_event_id := eid; ev_timestamp := "t"; ev_message := T "disk ERROR";
     ev_severity := T "ERROR" |}.

(** Twelve events appended to an empty outbox. *)
Definition scenario_store : outbox :=
  fold_left (fun s eid => fst (persist_log s (scenario_event eid))) scenario_ids empty_outbox.

(** [n] successive [flush_outbox] calls with [BATCH_SIZE = 5] against the
    unique-index collection. *)
Fixpoint run_flushes (n : nat) (s : outbox) (c : coll) : list flush_report * outbox * coll :=
  match n with
  | O => ([], s, c)
  | S n' =>
      let '(s1, c1, r) := flush_outbox mongo_insert_many 5 "now" s c in
      let '(rs, s2, c2) := run_flushes n' s1 c1 in
      (r :: rs, s2, c2)
  end.

(** C4: from the outbox holding exactly the 12 unsent events (a flush while
    the server is unreachable raises and leaves it so), three flushes with
    [BATCH_SIZE = 5] against a collection that accepts every insert process
    batches of 5, 5 and 2 events, all confirmed; afterwards all 12 records
    are sent and the collection holds exactly the 12 distinct event ids. *)
Theorem flush_scenario_12_events :
  length (ob_rows scenario_store) = 12%nat /\
  Forall (fun r => row_sent r = false) (ob_rows scenario_store) /\
  flush_outbox mongo_insert_many 5 "now" scenario_store remote_down =
    (scenario_store, remote_down, FlushRaised ["e1"; "e2"; "e3"; "e4"; "e5"]) /\
  let '(reps, s3, c3) := run_flushes 3 scenario_store remote_up in
  reps = [FlushDone ["e1"; "e2"; "e3"; "e4"; "e5"] ["e1"; "e2"; "e3"; "e4"; "e5"] [];
          FlushDone ["e6"; "e7"; "e8"; "e9"; "e10"] ["e6"; "e7"; "e8"; "e9"; "e10"] [];
          FlushDone ["e11"; "e12"] ["e11"; "e12"] []] /\
  length (ob_rows s3) = 12%nat /\
  Forall (fun r => row_sent r = true) (ob_rows s3) /\
  map d_event_id (c_docs c3) = scenario_ids /\
  NoDup (map d_event_id (c_docs c3)).
Proof.
  split; [vm_compute; reflexivity|].
  split; [vm_compute; repeat constructor|].
  split; [vm_compute; reflexivity|].
  vm_compute. split; [reflexivity|]. split; [reflexivity|].
  split; [repeat constructor|]. split; [reflexivity|].
  repeat constructor; set_solver.
Qed.

(* ------------------------------------------------------------------ *)
(** ** Claims about the tailers *)

Lemma take_line_spec (s : text) :
  (exists rest, s = take_line s ++ rest) /\
  (last (take_line s) = Some newline \/ take_line s = s) /\
  (take_line s = [] -> s = []).
Proof.
  induction s as [|c s [[rest Hrest] [Hend Hnil]]]; simpl.
  - split; [exists []; done|]. split; [by right|done].
  - case_bool_decide as Hc.
    + split; [exists s; done|]. split; [left; by subst|discriminate].
    + split; [exists rest; simpl; by rewrite <- Hrest|]. split; [|discriminate].
      destruct Hend as [Hl|Hs].
      * left. rewrite last_cons, Hl. reflexivity.
      * right. by rewrite Hs.
Qed.

Lemma read_available_spec (fuel : nat) (content : text) (pos : nat) :
  (pos <= length content)%nat -> (length content - pos <= fuel)%nat ->
  let '(lines, pos') := read_available fuel content pos in
  concat lines = drop pos content /\ pos' = length content /\
  Forall (fun l => l <> []) lines /\
  (forall i l, lines !! i = Some l -> last l <> Some newline -> S i = length lines).
Proof.
  revert pos. induction fuel as [|fuel IH]; intros pos Hpos Hfuel; simpl.
  - assert (pos = length content) as -> by lia. rewrite drop_all.
    split; [done|]. split; [done|]. split; [constructor|].
    intros i l Hi. by rewrite lookup_nil in Hi.
  - unfold readline.
    destruct (take_line_spec (drop pos content)) as [[rest Hrest] [Hend Hnil]].
    destruct (take_line (drop pos content)) as [|c l] eqn:Hl.
    + specialize (Hnil eq_refl). assert (Hlen := f_equal length Hnil).
      rewrite length_drop in Hlen. simpl in Hlen.
      split; [by rewrite Hnil|]. split; [lia|]. split; [constructor|].
      intros i l Hi. by rewrite lookup_nil in Hi.
    + assert (Hlen := f_equal length Hrest). rewrite length_drop, length_app in Hlen.
      simpl in Hlen.
      specialize (IH (pos + length (c :: l))%nat ltac:(simpl; lia) ltac:(simpl; lia)).
      destruct (read_available fuel content _) as [ls pos''] eqn:Hra.
      destruct IH as [Hcat [Hpos'' [Hne Hlast]]].
      split; [|split; [exact Hpos''|split; [constructor; [discriminate|exact Hne]|]]].
      * simpl. rewrite Hcat, <- drop_drop, Hrest, drop_app_length. reflexivity.
      * intros [|i] l' Hi Hnl; simpl in Hi |- *.
        -- injection Hi as <-. destruct Hend as [Hend|Hall]; [congruence|].
           destruct ls as [|l1 ls]; [reflexivity|exfalso].
           (* the line was the whole rest of the file: nothing is left *)
           assert (Hr : rest = []).
           { rewrite Hall in Hrest. destruct rest; [done|].
             apply (f_equal length) in Hrest. rewrite length_app in Hrest. simpl in Hrest. lia. }
           subst rest. rewrite app_nil_r in Hrest.
           assert (Hdrop : drop (pos + length (c :: l)) content = []).
           { rewrite <- drop_drop, Hrest, drop_all. reflexivity. }
           rewrite Hdrop in Hcat. simpl in Hcat. apply app_eq_nil in Hcat as [-> _].
           apply Forall_cons in Hne as [Hne _]. done.
        -- f_equal. by apply (Hlast i l').
Qed.

Lemma text_lines_spec (t : text) :
  concat (text_lines t) = t /\ Forall (fun l => l <> []) (text_lines t) /\
  (forall i l, text_lines t !! i = Some l -> last l <> Some newline ->
     S i = length (text_lines t)).
Proof.
  unfold text_lines.
  pose proof (read_available_spec (length t) t 0 ltac:(lia) ltac:(lia)) as H.
  destruct (read_available (length t) t 0) as [ls p]. cbn [fst].
  destruct H as [Hc [_ [Hne Hl]]]. rewrite drop_0 in Hc. done.
Qed.

Definition empty_mstore : mstore := {| ms_rows := []; ms_seq := 0 |}.

(** C9 (as stated: a trailing fragment without newline is buffered, never
    emitted) fails: after the writer has appended "disk ERROR" without a
    newline, [follow] yields it as a line at once, [monitor_logs] classifies
    and persists it, the rest of the line written later comes as a
    separate line, and the minimal tailer persists the fragment too. *)
Lemma follow_emits_fragment :
  follow_round (T "disk ERROR") 0 = Some ([T "disk ERROR"], 10%nat) /\
  last (T "disk ERROR") <> Some newline /\
  ob_rows (fst (monitor_lines mongo_insert_many 5 empty_outbox remote_down ["id1"] "t"
                  [T "disk ERROR"])) =
    [{| row_id := 1; row_event_id := "id1"; row_timestamp := "t";
        row_message := T "disk ERROR"; row_severity := T "ERROR"; row_sent := false |}] /\
  follow_round (T "disk ERROR full" ++ [newline]) 10 = Some ([T " full" ++ [newline]], 16%nat) /\
  ms_rows (fst (tail_round default_pattern (T "/tmp/test.log") "t" (T "disk ERROR") 0
                  empty_mstore)) =
    [{| mrow_id := 1; mrow_timestamp := "t"; mrow_filename := T "/tmp/test.log";
        mrow_line := T "disk ERROR"; mrow_sent := false |}].
Proof.
  split; [vm_compute; reflexivity|]. split; [vm_compute; discriminate|].
  split; [vm_compute; reflexivity|]. split; vm_compute; reflexivity.
Qed.

(** C10: [persist_match] appends one row whose [line] is the first 4000
    characters of the line (the whole line when it has at most 4000), the
    rest being dropped, and whose [filename] is the given one unchanged. *)
Theorem persist_match_truncates (s : mstore) (ts : string) (filename line : text) :
  exists r, ms_rows (persist_match s ts filename line) = ms_rows s ++ [r] /\
    mrow_line r = take 4000 line /\
    mrow_filename r = filename /\
    length (mrow_line r) = Nat.min 4000 (length line) /\
    ((length line <= 4000)%nat -> mrow_line r = line) /\
    mrow_line r ++ drop 4000 line = line.
Proof.
  eexists. split; [reflexivity|]. cbn [mrow_line mrow_filename].
  split; [reflexivity|]. split; [reflexivity|].
  split; [exact (length_take line 4000%nat)|]. split.
  - intros Hle. exact (take_ge line 4000%nat Hle).
  - exact (take_drop 4000%nat line).
Qed.

(* ------------------------------------------------------------------ *)
(** ** Further properties of the code *)

(** *** [mark_sent] *)

Lemma mark_sent_compose (s : outbox) (a b : list string) :
  mark_sent (mark_sent s a) b = mark_sent s (a ++ b).
Proof.
  destruct a as [|x a]; [reflexivity|]. destruct b as [|y b].
  { by rewrite app_nil_r. }
  simpl. f_equal. rewrite map_map. apply map_ext. intros r.
  assert (Hid : forall r0, row_event_id (if bool_decide (row_event_id r0 ∈ x :: a)
                                        then set_sent r0 else r0) = row_event_id r0)
    by (intros r0; by case_bool_decide).
  rewrite Hid.
  repeat case_bool_decide; try reflexivity; exfalso; set_solver.
Qed.

(** X1: marking ids in two steps is marking their concatenation at once. *)
Theorem mark_sent_twice (s : outbox) (a b : list string) :
  mark_sent (mark_sent s a) b = mark_sent s (a ++ b).
Proof. apply mark_sent_compose. Qed.

(** X2: [mark_sent] is idempotent: marking the same ids again changes nothing. *)
Theorem mark_sent_idempotent (s : outbox) (ids : list string) :
  mark_sent (mark_sent s ids) ids = mark_sent s ids.
Proof.
  rewrite mark_sent_compose. destruct ids as [|x ids]; [reflexivity|].
  simpl. f_equal. apply map_ext. intros r.
  repeat case_bool_decide; try reflexivity; exfalso; set_solver.
Qed.

(** X3: [mark_sent] with an empty list, or with ids no record carries,
    leaves the store exactly as it was. *)
Theorem mark_sent_absent_noop (s : outbox) (ids : list string) :
  (forall r, r ∈ ob_rows s -> row_event_id r ∉ ids) -> mark_sent s ids = s.
Proof.
  intros Hnone. destruct ids as [|x ids]; [reflexivity|].
  destruct s as [rows seq]. simpl in *. f_equal.
  rewrite <- (map_id rows) at 2. apply map_ext_in. intros r Hr.
  rewrite bool_decide_eq_false_2; [reflexivity|].
  apply Hnone. by apply list_elem_of_In.
Qed.

Lemma mark_sent_absent_noop_witness :
  (forall r, r ∈ ob_rows outbox_two -> row_event_id r ∉ ["zz"]) /\
  mark_sent outbox_two ["zz"] = outbox_two.
Proof.
  assert (H : forall r, r ∈ ob_rows outbox_two -> row_event_id r ∉ ["zz"]).
  { intros r Hr. simpl in Hr.
    repeat (apply elem_of_cons in Hr as [->|Hr]; [simpl; set_solver|]).
    by apply not_elem_of_nil in Hr. }
  split; [exact H|]. exact (mark_sent_absent_noop outbox_two ["zz"] H).
Defined.

(** *** [parse_log_line] *)

Lemma drop_newlines_spec (s : text) :
  exists k, s = repeat newline k ++ drop_newlines s /\
            head (drop_newlines s) <> Some newline.
Proof.
  induction s as [|c s [k [Hk Hh]]]; simpl.
  - exists O. split; [done|discriminate].
  - case_bool_decide as Hc.
    + exists (S k). subst c. simpl. split; [by rewrite <- Hk|exact Hh].
    + exists O. split; [done|]. simpl. intros H; injection H. done.
Qed.

Lemma rstrip_nl_spec (l : text) :
  exists k, l = rstrip_nl l ++ repeat newline k /\ last (rstrip_nl l) <> Some newline.
Proof.
  destruct (drop_newlines_spec (rev l)) as [k [Hk Hh]].
  exists k. unfold rstrip_nl. split.
  - set (d := drop_newlines (rev l)) in *.
    rewrite <- (rev_involutive l) at 1. rewrite Hk, rev_app_distr, rev_repeat. reflexivity.
  - destruct (drop_newlines (rev l)) as [|c d]; [discriminate|].
    simpl. rewrite last_snoc. intros H; injection H as ->. done.
Qed.

Lemma rstrip_nl_repeat (k : nat) : rstrip_nl (repeat newline k) = [].
Proof.
  unfold rstrip_nl. rewrite rev_repeat.
  induction k as [|k IH]; simpl; [done|].
  try rewrite bool_decide_eq_true_2 by done. exact IH.
Qed.

(** X4: [parse_log_line] returns [None] exactly for lines made only of
    newlines (the empty line included); otherwise the message is the line
    without its trailing newlines, it does not end in a newline, and adding
    those newlines back gives the line. *)
Theorem parse_log_line_none_iff (eid ts : string) (line : text) :
  (parse_log_line eid ts line = None <-> exists k, line = repeat newline k) /\
  (forall e, parse_log_line eid ts line = Some e ->
     last (ev_message e) <> Some newline /\
     exists k, line = ev_message e ++ repeat newline k).
Proof.
  destruct (rstrip_nl_spec line) as [k [Hk Hlast]].
  split.
  - unfold parse_log_line. split.
    + destruct (rstrip_nl line) as [|c rest] eqn:Hr; [|discriminate].
      intros _. exists k. exact Hk.
    + intros [j ->]. rewrite rstrip_nl_repeat. reflexivity.
  - intros e He. destruct (rstrip_nl line) as [|c rest] eqn:Hr.
    + unfold parse_log_line in He. rewrite Hr in He. discriminate.
    + rewrite (parse_log_line_some eid ts line (c :: rest) Hr) in He by discriminate.
      injection He as <-. simpl ev_message. split; [exact Hlast|]. by exists k.
Qed.

Lemma nil_or_snoc {A} (l : list A) : l = [] \/ exists l' a, l = l' ++ [a].
Proof. induction l as [|a l _] using rev_ind; [by left|right; eauto]. Qed.

Lemma upper_table_ok :
  Forall (fun p => p.1 <> newline /\ p.2 <> [] /\ newline ∉ p.2) upper_table.
Proof. apply (bool_decide_unpack _). vm_compute. reflexivity. Qed.

Lemma assoc_lookup_in (c : Z) (t : list (Z * list Z)) (u : list Z) :
  assoc_lookup c t = Some u -> (c, u) ∈ t.
Proof.
  induction t as [|[c' u'] t IH]; simpl; [discriminate|].
  case_bool_decide as Hc.
  - intros H; injection H as <-. subst. by left.
  - intros H. right. by apply IH.
Qed.

Lemma upper_char_newline : upper_char newline = [newline].
Proof. vm_compute. reflexivity. Qed.

Lemma upper_char_other (c : Z) :
  c <> newline -> upper_char c <> [] /\ newline ∉ upper_char c.
Proof.
  intros Hc. unfold upper_char.
  destruct (assoc_lookup c upper_table) as [u|] eqn:Hl.
  - apply assoc_lookup_in in Hl. pose proof upper_table_ok as Hok.
    rewrite Forall_forall in Hok. destruct (Hok _ Hl) as [_ [Hne Hnl]]. auto.
  - split; [discriminate|]. rewrite list_elem_of_singleton. congruence.
Qed.

Lemma upper_repeat_newline (k : nat) : upper (repeat newline k) = repeat newline k.
Proof.
  induction k as [|k IH]; [reflexivity|].
  change (upper_char newline ++ upper (repeat newline k) = newline :: repeat newline k).
  by rewrite upper_char_newline, IH.
Qed.

Lemma upper_last (m : text) :
  last m <> Some newline -> last (upper m) <> Some newline.
Proof.
  destruct (nil_or_snoc m) as [->|[m' [c ->]]]; [simpl; congruence|].
  rewrite last_snoc. intros Hc.
  assert (Hc' : c <> newline) by congruence.
  destruct (upper_char_other c Hc') as [Hne Hnl].
  rewrite upper_app. unfold upper at 2. cbn [map concat]. rewrite app_nil_r.
  destruct (nil_or_snoc (upper_char c)) as [Hu|[u [x Hu]]]; [done|].
  rewrite Hu, app_assoc, last_snoc. intros H; injection H as ->.
  apply Hnl. rewrite Hu. apply elem_of_app. right. by left.
Qed.

Lemma upper_nil (m : text) : upper m = [] -> m = [] \/ m = repeat newline (length m).
Proof.
  destruct m as [|c m]; [by left|].
  intros H. change (upper_char c ++ upper m = []) in H.
  apply app_eq_nil in H as [Hc _].
  destruct (decide (c = newline)) as [->|Hn].
  - rewrite upper_char_newline in Hc. discriminate.
  - by destruct (upper_char_other c Hn).
Qed.

Lemma rstrip_nl_snoc_repeat (x : text) (k : nat) :
  last x <> Some newline -> rstrip_nl (x ++ repeat newline k) = x.
Proof.
  intros Hx. unfold rstrip_nl. rewrite rev_app_distr, rev_repeat.
  induction k as [|k IH]; simpl.
  - destruct (rev x) as [|c r] eqn:Hr; [by rewrite <- (rev_involutive x), Hr|].
    simpl. rewrite bool_decide_eq_false_2.
    + by rewrite <- Hr, rev_involutive.
    + intros ->. apply Hx. rewrite <- (rev_involutive x), Hr. simpl. apply last_snoc.
  - try rewrite bool_decide_eq_true_2 by reflexivity. exact IH.
Qed.

Lemma rstrip_nl_upper (l : text) : rstrip_nl (upper l) = upper (rstrip_nl l).
Proof.
  destruct (rstrip_nl_spec l) as [k [Hk Hlast]].
  set (m := rstrip_nl l) in *. rewrite Hk, upper_app, upper_repeat_newline.
  apply rstrip_nl_snoc_repeat, upper_last, Hlast.
Qed.

Lemma last_repeat {A} (x : A) (n : nat) : last (repeat x (S n)) = Some x.
Proof. induction n as [|n IH]; [reflexivity|]. rewrite <- IH. reflexivity. Qed.

Lemma upper_rstrip_nil (l : text) : upper (rstrip_nl l) = [] -> rstrip_nl l = [].
Proof.
  destruct (rstrip_nl_spec l) as [_ [_ Hlast]]. intros H.
  destruct (upper_nil _ H) as [Hn|Hr]; [exact Hn|].
  destruct (rstrip_nl l) as [|c m] eqn:E; [reflexivity|exfalso].
  rewrite Hr in Hlast. cbn [length] in Hlast. by rewrite last_repeat in Hlast.
Qed.

(** X5: the classification ignores case as [str.upper] does: two lines
    with the same upper-cased form (also when [str.upper] maps a character
    to several, as the ligature U+FB00 to "FF") are either both skipped or
    both classified, with the same severity. *)
Theorem parse_log_line_case_insensitive (eid ts eid' ts' : string) (l1 l2 : text) :
  upper l1 = upper l2 ->
  option_map ev_severity (parse_log_line eid ts l1) =
  option_map ev_severity (parse_log_line eid' ts' l2).
Proof.
  intros Hup.
  assert (Hs : upper (rstrip_nl l1) = upper (rstrip_nl l2))
    by (rewrite <- !rstrip_nl_upper; by rewrite Hup).
  assert (E : rstrip_nl l1 = [] <-> rstrip_nl l2 = []).
  { split; intros H; apply upper_rstrip_nil; [rewrite <- Hs, H|rewrite Hs, H]; reflexivity. }
  unfold parse_log_line.
  destruct (rstrip_nl l1) as [|c1 r1] eqn:H1, (rstrip_nl l2) as [|c2 r2] eqn:H2.
  - reflexivity.
  - exfalso. destruct E as [Ea _]. discriminate (Ea eq_refl).
  - exfalso. destruct E as [_ Eb]. discriminate (Eb eq_refl).
  - simpl. f_equal. rewrite ?H1, ?H2 in Hs. exact (f_equal (scan_levels levels) Hs).
Qed.

(** "<U+FB00>atal disk" and "ffatal DISK". *)
Definition line_ff_ligature : text := [64256] ++ T "atal disk".

Lemma parse_log_line_case_insensitive_witness :
  upper line_ff_ligature = upper (T "ffatal DISK") /\
  option_map ev_severity (parse_log_line "a" "t" line_ff_ligature) =
  option_map ev_severity (parse_log_line "b" "u" (T "ffatal DISK")).
Proof.
  assert (H : upper line_ff_ligature = upper (T "ffatal DISK")) by (vm_compute; reflexivity).
  split; [exact H|]. exact (parse_log_line_case_insensitive "a" "t" "b" "u" _ _ H).
Defined.

(** *** [flush_outbox]: edge cases and progress *)

Definition count_unsent (s : outbox) : nat :=
  length (filter (fun r => row_sent r = false) (ob_rows s)).

Lemma filter_all_true {A} (P : A -> Prop) `{!forall x, Decision (P x)} (l : list A) :
  (forall x, x ∈ l -> P x) -> filter P l = l.
Proof.
  induction l as [|x l IH]; intros Hl; [done|].
  rewrite filter_cons_True by (apply Hl; by left). f_equal. apply IH.
  intros y Hy. apply Hl. by right.
Qed.

Lemma filter_all_false {A} (P : A -> Prop) `{!forall x, Decision (P x)} (l : list A) :
  (forall x, x ∈ l -> ~ P x) -> filter P l = [].
Proof.
  induction l as [|x l IH]; intros Hl; [done|].
  rewrite filter_cons_False by (apply Hl; by left). apply IH.
  intros y Hy. apply Hl. by right.
Qed.

Lemma length_filter_map {A B} (P : B -> Prop) `{!forall x, Decision (P x)}
    (g : A -> B) (l : list A) :
  length (filter P (map g l)) = length (filter (fun x => P (g x)) l).
Proof.
  induction l as [|x l IH]; [done|]. simpl. rewrite !filter_cons.
  destruct (decide (P (g x))); simpl; by rewrite IH.
Qed.

Lemma length_filter_split {A} (P Q : A -> Prop) `{!forall x, Decision (P x)}
    `{!forall x, Decision (Q x)} (l : list A) :
  length (filter P l) =
    (length (filter (fun x => P x /\ Q x) l) + length (filter (fun x => P x /\ ~ Q x) l))%nat.
Proof.
  induction l as [|x l IH]; [done|]. rewrite !filter_cons.
  destruct (decide (P x)), (decide (Q x));
    repeat first [rewrite decide_True by tauto | rewrite decide_False by tauto];
    simpl; lia.
Qed.

Lemma NoDup_map_filter {A B} (f : A -> B) (P : A -> Prop) `{!forall x, Decision (P x)}
    (l : list A) :
  NoDup (map f l) -> NoDup (map f (filter P l)).
Proof.
  induction l as [|x l IH]; simpl; intros Hnd; [constructor|].
  apply NoDup_cons in Hnd as [Hx Hnd]. rewrite filter_cons.
  destruct (decide (P x)); simpl; [|by apply IH].
  constructor; [|by apply IH]. intros Hin. apply Hx.
  apply elem_of_map_iff in Hin as [y [-> Hy]]. apply elem_of_map_iff.
  exists y. split; [done|]. by apply list_elem_of_filter in Hy as [_ Hy].
Qed.

Lemma send_batch_cover (insert_many : coll -> list doc -> coll * insert_outcome)
    (c c' : coll) (docs : list doc) (succ failed : list string) :
  send_batch_to_mongo insert_many c docs = (c', Returned succ failed) ->
  forall e, (e ∈ succ \/ e ∈ failed) <-> e ∈ map d_event_id docs.
Proof.
  unfold send_batch_to_mongo. destruct docs as [|d ds].
  { intros H; injection H as _ <- <-. intros e. simpl. set_solver. }
  destruct (insert_many c (d :: ds)) as [c1 [| |]].
  - intros H; injection H as _ <- <-. intros e. set_solver.
  - destruct (mongo_find c1 _) as [found|]; [|discriminate].
    intros H; injection H as _ <- <-. intros e.
    rewrite !list_elem_of_filter. destruct (decide (e ∈ map d_event_id found)); tauto.
  - discriminate.
Qed.



Lemma flush_outbox_done_count
    (insert_many : coll -> list doc -> coll * insert_outcome)
    (bs : Z) (now : string) (s s' : outbox) (c c' : coll) (batch succ : list string) :
  unique_event_ids s -> 0 <= bs ->
  flush_outbox insert_many bs now s c = (s', c', FlushDone batch succ []) ->
  length batch = Nat.min (Z.to_nat bs) (count_unsent s) /\
  (count_unsent s' + length batch)%nat = count_unsent s.
Proof.
  intros Hu Hbs Hflush.
  destruct (flush_outbox_done _ _ _ _ _ _ _ _ _ _ Hflush) as [Hbatch [Hsend Hs']].
  pose proof (send_batch_cover _ _ _ _ _ _ Hsend) as Hcover.
  rewrite event_ids_of_docs in Hcover.
  set (F := fetch_unsent_rows s bs) in *.
  destruct (fetch_unsent_rows_split s bs Hbs) as [[rest Hperm] Hlen].
  fold F in Hperm, Hlen.
  assert (HlenB : length batch = length F) by (subst batch; apply length_map).
  split; [rewrite HlenB, Hlen; reflexivity|].
  set (U := fun r : row => row_sent r = false).
  set (Q := fun r : row => row_event_id r ∈ succ).
  (* the unsent rows split into those of the batch and the others *)
  assert (HnodupU : NoDup (map row_event_id (F ++ rest))).
  { rewrite Hperm. by apply NoDup_map_filter. }
  rewrite map_app in HnodupU. apply NoDup_app in HnodupU as [_ [Hdisj _]].
  assert (HinQ : forall r, r ∈ F -> Q r).
  { intros r Hr. unfold Q.
    destruct (proj2 (Hcover (row_event_id r))) as [Hs|Hn];
      [apply elem_of_map_iff; eauto|exact Hs|by apply not_elem_of_nil in Hn]. }
  (* [failed] is empty, so [Q r] just says the id is in the batch *)
  assert (HQF : forall r, Q r -> row_event_id r ∈ map row_event_id F).
  { intros r Hq. apply Hcover. by left. }
  assert (HnotQ : forall r, r ∈ rest -> ~ Q r).
  { intros r Hr Hq. apply (Hdisj (row_event_id r)); [by apply HQF|].
    apply elem_of_map_iff. eauto. }
  assert (Hcount : length (filter (fun r => U r /\ Q r) (ob_rows s)) = length F).
  { rewrite (list_filter_iff (fun r => U r /\ Q r) (fun r => Q r /\ U r)) by tauto.
    rewrite <- (list_filter_filter Q U). unfold U.
    rewrite <- Hperm, filter_app, (filter_all_true Q F HinQ),
      (filter_all_false Q rest HnotQ), app_nil_r. reflexivity. }
  (* the rows left unsent after the flush *)
  assert (Hafter : count_unsent s' = length (filter (fun r => U r /\ ~ Q r) (ob_rows s))).
  { destruct succ as [|x succ'].
    - exfalso. destruct F as [|r F'] eqn:HF.
      + subst batch. simpl in Hflush.
        unfold flush_outbox, fetch_unsent in Hflush. fold F in Hflush. rewrite HF in Hflush.
        discriminate.
      + assert (Hr : r ∈ r :: F') by (apply elem_of_cons; by left).
        specialize (HinQ r Hr). unfold Q in HinQ.
        by apply not_elem_of_nil in HinQ.
    - subst s'. unfold count_unsent.
      destruct (mark_sent_rows s (x :: succ')) as [Hrows _]; [discriminate|].
      rewrite Hrows, length_filter_map. f_equal. apply list_filter_iff.
      intros r. unfold U, Q. case_bool_decide as Hin; simpl.
      + split; [discriminate|]. intros [_ Hn]. contradiction.
      + tauto. }
  rewrite Hafter, <- HlenB in *. rewrite <- Hcount.
  unfold count_unsent. rewrite (length_filter_split U Q). fold U. lia.
Qed.

(** X8: with event ids unique, a flush whose whole batch is confirmed
    ([failed] empty) sends [min BATCH_SIZE (#unsent)] records (for
    [BATCH_SIZE >= 0]) and lowers the number of unsent records by exactly
    the batch size. *)
Theorem flush_outbox_progress
    (insert_many : coll -> list doc -> coll * insert_outcome)
    (bs : Z) (now : string) (s s' : outbox) (c c' : coll) (batch succ : list string) :
  unique_event_ids s -> 0 <= bs ->
  flush_outbox insert_many bs now s c = (s', c', FlushDone batch succ []) ->
  length batch = Nat.min (Z.to_nat bs) (count_unsent s) /\
  (count_unsent s' + length batch)%nat = count_unsent s.
Proof. exact (flush_outbox_done_count insert_many bs now s s' c c' batch succ). Qed.

Lemma flush_outbox_progress_witness :
  unique_event_ids scenario_store /\ (0 <= 5) /\
  flush_outbox mongo_insert_many 5 "now" scenario_store remote_up =
    (fst (fst (flush_outbox mongo_insert_many 5 "now" scenario_store remote_up)),
     snd (fst (flush_outbox mongo_insert_many 5 "now" scenario_store remote_up)),
     FlushDone ["e1"; "e2"; "e3"; "e4"; "e5"] ["e1"; "e2"; "e3"; "e4"; "e5"] []) /\
  (count_unsent (fst (fst (flush_outbox mongo_insert_many 5 "now" scenario_store remote_up)))
     + 5)%nat = count_unsent scenario_store.
Proof.
  assert (Hu : unique_event_ids scenario_store)
    by (unfold unique_event_ids; vm_compute; repeat constructor; set_solver).
  assert (Hb : 0 <= 5) by lia.
  assert (Hf : flush_outbox mongo_insert_many 5 "now" scenario_store remote_up =
    (fst (fst (flush_outbox mongo_insert_many 5 "now" scenario_store remote_up)),
     snd (fst (flush_outbox mongo_insert_many 5 "now" scenario_store remote_up)),
     FlushDone ["e1"; "e2"; "e3"; "e4"; "e5"] ["e1"; "e2"; "e3"; "e4"; "e5"] []))
    by (vm_compute; reflexivity).
  split; [exact Hu|]. split; [exact Hb|]. split; [exact Hf|].
  exact (proj2 (flush_outbox_progress _ _ _ _ _ _ _ _ _ Hu Hb Hf)).
Defined.

(** *** Local ids: AUTOINCREMENT order *)

(** The ids of the rows increase strictly in table order and never exceed
    the AUTOINCREMENT counter. *)
Definition ids_increasing (s : outbox) : Prop :=
  StronglySorted Z.lt (map row_id (ob_rows s)) /\
  Forall (fun i => i <= ob_seq s) (map row_id (ob_rows s)).

Lemma max_id_ge (rs : list row) (i : Z) : i ∈ map row_id rs -> i <= max_id rs.
Proof.
  induction rs as [|r rs IH]; simpl; intros Hi; [by apply not_elem_of_nil in Hi|].
  apply elem_of_cons in Hi as [->|Hi]; [lia|]. specialize (IH Hi). lia.
Qed.

Lemma strongly_sorted_snoc {A} (R : relation A) (l : list A) (x : A) :
  StronglySorted R l -> (forall y, y ∈ l -> R y x) -> StronglySorted R (l ++ [x]).
Proof.
  induction l as [|a l IH]; simpl; intros Hs Hlt.
  - repeat constructor.
  - apply StronglySorted_inv in Hs as [Hs Hall]. constructor.
    + apply IH; [exact Hs|]. intros y Hy. apply Hlt. by right.
    + apply Forall_app. split; [exact Hall|]. constructor; [|constructor].
      apply Hlt. by left.
Qed.

Lemma mark_sent_row_ids (s : outbox) (ids : list string) :
  map row_id (ob_rows (mark_sent s ids)) = map row_id (ob_rows s) /\
  ob_seq (mark_sent s ids) = ob_seq s.
Proof.
  destruct ids as [|i ids]; [done|]. simpl. split; [|done].
  rewrite map_map. apply map_ext. intros r. by case_bool_decide.
Qed.

Lemma store_step_ids_increasing (s s' : outbox) :
  store_step s s' -> ids_increasing s -> ids_increasing s'.
Proof.
  intros Hstep [Hs Hseq].
  assert (Hmark : forall ids, ids_increasing (mark_sent s ids)).
  { intros ids. destruct (mark_sent_row_ids s ids) as [H1 H2].
    split; [by rewrite H1|by rewrite H1, H2]. }
  destruct Hstep as [s e|s lim|s ids|im bs now s c].
  - destruct (persist_log_cases s e) as [[_ ->]|[_ ->]]; [by split|]. cbn [fst ob_rows ob_seq].
    unfold ids_increasing. cbn [ob_rows ob_seq]. rewrite map_app. cbn [map row_id].
    set (nid := Z.max (ob_seq s) (max_id (ob_rows s)) + 1).
    split.
    + apply strongly_sorted_snoc; [exact Hs|]. intros y Hy.
      pose proof (max_id_ge _ _ Hy). unfold nid. lia.
    + apply Forall_app. split; [|constructor; [unfold nid; lia|constructor]].
      rewrite Forall_forall in Hseq |- *. intros y Hy. specialize (Hseq y Hy). unfold nid. lia.
  - by split.
  - apply Hmark.
  - destruct (flush_outbox_store im bs now s c) as [->|[ids ->]]; [by split|apply Hmark].
Qed.

(** X9: in every store reachable from the empty one, local ids strictly
    increase in insertion order (so they are unique) and stay at or below
    the AUTOINCREMENT counter, and each further store operation keeps this;
    a record appended by [persist_log] gets an id larger than every
    existing one. *)
Theorem reachable_ids_increasing (s s' : outbox) :
  rtc store_step empty_outbox s -> store_step s s' ->
  ids_increasing s /\ ids_increasing s'.
Proof.
  intros Hr Hstep.
  assert (Hs : ids_increasing s).
  { clear Hstep. remember empty_outbox as s0 eqn:Hs0.
    assert (H0 : ids_increasing s0) by (subst; split; constructor).
    clear Hs0. induction Hr as [s|s1 s2 s3 H12 _ IH]; [exact H0|].
    apply IH. exact (store_step_ids_increasing s1 s2 H12 H0). }
  split; [exact Hs|]. exact (store_step_ids_increasing s s' Hstep Hs).
Qed.

Lemma reachable_ids_increasing_witness :
  rtc store_step empty_outbox reached_store /\
  map row_id (ob_rows (fst (persist_log reached_store (demo_event "e3" "fan FATAL")))) =
    [1; 2; 3] /\
  ids_increasing reached_store /\
  ids_increasing (fst (persist_log reached_store (demo_event "e3" "fan FATAL"))).
Proof.
  assert (Hr : rtc store_step empty_outbox reached_store).
  { exact (rtc_l _ _ _ _ (Step_persist empty_outbox (demo_event "e1" "disk ERROR"))
            (rtc_l _ _ _ _ (Step_persist reached_s1 (demo_event "e2" "db ERROR"))
              (rtc_l _ _ _ _ (Step_mark reached_s2 ["e1"]) (rtc_refl _ _)))). }
  split; [exact Hr|]. split; [vm_compute; reflexivity|].
  exact (reachable_ids_increasing reached_store _ Hr
           (Step_persist reached_store (demo_event "e3" "fan FATAL"))).
Defined.

(** *** Ingestion: [monitor_logs]'s loop body *)

Lemma mark_sent_messages (s : outbox) (ids : list string) :
  map row_message (ob_rows (mark_sent s ids)) = map row_message (ob_rows s).
Proof.
  destruct ids as [|i ids]; [done|]. simpl.
  rewrite map_map. apply map_ext. intros r. by case_bool_decide.
Qed.

Lemma flush_outbox_keeps_rows (insert_many : coll -> list doc -> coll * insert_outcome)
    (bs : Z) (now : string) (s : outbox) (c : coll) :
  map row_message (ob_rows (fst (fst (flush_outbox insert_many bs now s c)))) =
    map row_message (ob_rows s) /\
  map row_event_id (ob_rows (fst (fst (flush_outbox insert_many bs now s c)))) =
    map row_event_id (ob_rows s).
Proof.
  destruct (flush_outbox_store insert_many bs now s c) as [->|[ids ->]]; [done|].
  split; [apply mark_sent_messages|apply mark_sent_event_ids].
Qed.

Lemma monitor_lines_messages
    (insert_many : coll -> list doc -> coll * insert_outcome) (bs : Z)
    (s : outbox) (c : coll) (eids : list string) (ts : string) (lines : list text) :
  NoDup (eids ++ map row_event_id (ob_rows s)) -> (length lines <= length eids)%nat ->
  map row_message (ob_rows (fst (monitor_lines insert_many bs s c eids ts lines))) =
    map row_message (ob_rows s) ++ filter (fun m => m <> []) (map rstrip_nl lines).
Proof.
  revert s c eids. induction lines as [|l ls IH]; intros s c eids Hnd Hlen.
  - simpl. destruct eids; by rewrite app_nil_r.
  - destruct eids as [|eid eids']; [simpl in Hlen; lia|].
    simpl in Hlen. cbn [monitor_lines map]. rewrite filter_cons.
    destruct (parse_log_line eid ts l) as [e|] eqn:Hp.
    + assert (Hne : rstrip_nl l <> []).
      { intros Hnil. unfold parse_log_line in Hp. rewrite Hnil in Hp. discriminate. }
      rewrite decide_True by exact Hne.
      pose proof (parse_log_line_some eid ts l _ eq_refl Hne) as Hpe.
      rewrite Hp in Hpe. injection Hpe as Hpe.
      assert (Hid : ev_event_id e = eid) by (rewrite Hpe; reflexivity).
      assert (Hmsg : ev_message e = rstrip_nl l) by (rewrite Hpe; reflexivity).
      assert (Hfresh : ev_event_id e ∉ map row_event_id (ob_rows s)).
      { rewrite Hid. apply NoDup_app in Hnd as [_ [Hd _]]. apply Hd. by left. }
      destruct (persist_log_cases s e) as [[Hin _]|[_ Hps]]; [done|].
      rewrite Hps. cbn [fst].
      set (s1 := {| ob_rows := _; ob_seq := _ |}).
      destruct (flush_outbox insert_many bs ts s1 c) as [[s2 c2] r2] eqn:Hfl.
      destruct (flush_outbox_keeps_rows insert_many bs ts s1 c) as [Hm Hi].
      rewrite Hfl in Hm, Hi. cbn [fst] in Hm, Hi.
      rewrite IH.
      * rewrite Hm. unfold s1. cbn [ob_rows]. rewrite map_app, <- app_assoc. cbn [map]. by rewrite Hmsg.
      * rewrite Hi. unfold s1. cbn [ob_rows]. rewrite map_app. cbn [map row_event_id].
        rewrite Hid. revert Hnd. apply NoDup_Permutation_proper. solve_Permutation.
      * lia.
    + assert (Hnil : rstrip_nl l = []).
      { unfold parse_log_line in Hp. destruct (rstrip_nl l); [done|discriminate]. }
      rewrite decide_False by (intros H; exact (H Hnil)).
      apply IH; [done|simpl; lia].
Qed.

(** X10: whatever the remote does (accepting, rejecting or unreachable),
    the ingestion loop persists every line that is not made only of
    newlines, in order, with the trailing newlines removed, provided it has
    a fresh [uuid4] for each line. *)
Theorem monitor_lines_persists_every_line
    (insert_many : coll -> list doc -> coll * insert_outcome) (bs : Z)
    (s : outbox) (c : coll) (eids : list string) (ts : string) (lines : list text) :
  NoDup (eids ++ map row_event_id (ob_rows s)) -> (length lines <= length eids)%nat ->
  map row_message (ob_rows (fst (monitor_lines insert_many bs s c eids ts lines))) =
    map row_message (ob_rows s) ++ filter (fun m => m <> []) (map rstrip_nl lines).
Proof. exact (monitor_lines_messages insert_many bs s c eids ts lines). Qed.

Lemma monitor_lines_persists_every_line_witness :
  NoDup (["a"; "b"; "c"] ++ map row_event_id (ob_rows empty_outbox)) /\
  (length [T "disk ERROR"; T "
"; T "ok"] <= length ["a"; "b"; "c"])%nat /\
  map row_message (ob_rows (fst (monitor_lines mongo_insert_many 5 empty_outbox remote_down
    ["a"; "b"; "c"] "t0" [T "disk ERROR"; T "
"; T "ok"]))) =
    map row_message (ob_rows empty_outbox) ++
      filter (fun m => m <> []) (map rstrip_nl [T "disk ERROR"; T "
"; T "ok"]).
Proof.
  assert (Hnd : NoDup (["a"; "b"; "c"] ++ map row_event_id (ob_rows empty_outbox)))
    by (apply (bool_decide_unpack _); vm_compute; reflexivity).
  assert (Hlen : (length [T "disk ERROR"; T "
"; T "ok"] <= length ["a"; "b"; "c"])%nat) by (simpl; lia).
  split; [exact Hnd|split; [exact Hlen|]].
  exact (monitor_lines_persists_every_line mongo_insert_many 5 empty_outbox remote_down
    ["a"; "b"; "c"] "t0" _ Hnd Hlen).
Defined.

(** *** [follow] over a growing file *)

(** Successive polling rounds of [follow] while writers append the byte
    chunks [chunks] one after the other to the file: before each round the
    file grows by the next chunk, then [readline] is called until it
    returns [""]; [None] once a round raises. *)
Fixpoint follow_rounds (content : bytes) (pos : nat) (chunks : list bytes)
    : option (list text * nat) :=
  match chunks with
  | [] => Some ([], pos)
  | a :: rest =>
      let content' := content ++ a in
      match follow_round content' pos with
      | None => None
      | Some (ls, pos') =>
          match follow_rounds content' pos' rest with
          | None => None
          | Some (ls', pos'') => Some (ls ++ ls', pos'')
          end
      end
  end.

(** X11: [follow] first seeks to the end of the file, so none of the
    content present when it starts is ever yielded; from then on, when each
    appended chunk decodes as UTF-8 on its own, the text of every chunk
    (newlines translated chunk by chunk) is yielded exactly once, in order,
    no yielded line is empty, and the offset stays at the end of the
    file. *)
Theorem follow_yields_appended_once (c0 : bytes) (chunks : list bytes) (ts : list text) :
  Forall2 (fun a t => utf8_decode_strict a = Some t) chunks ts ->
  exists ls pos,
    follow_rounds c0 (length c0) chunks = Some (ls, pos) /\
    concat ls = concat (map translate_newlines ts) /\
    Forall (fun l => l <> []) ls /\
    pos = length (c0 ++ concat chunks).
Proof.
  intros Hd. revert c0. induction Hd as [|a t rest trest Ha Hd IH]; intros c0; simpl.
  - exists [], (length c0). rewrite app_nil_r. done.
  - unfold follow_round. rewrite drop_app_length, Ha.
    destruct (text_lines_spec (translate_newlines t)) as [Hc [Hne _]].
    assert (Hp : Nat.max (length c0) (length (c0 ++ a)) = length (c0 ++ a))
      by (rewrite length_app; lia).
    rewrite Hp.
    destruct (IH (c0 ++ a)) as [ls' [pos' [Hfr [Hc' [Hne' Hp']]]]].
    rewrite Hfr. eexists _, _. split; [reflexivity|].
    rewrite concat_app, Hc, Hc'. split; [done|]. split; [by apply Forall_app|].
    rewrite Hp', <- app_assoc. reflexivity.
Qed.

Lemma follow_yields_appended_once_witness :
  Forall2 (fun a t => utf8_decode_strict a = Some t)
    [T "disk ERR"; [79; 82; 13]; [10; 195; 169; 116; 195; 169; 10]]
    [T "disk ERR"; [79; 82; 13]; [10; 233; 116; 233; 10]] /\
  exists ls pos,
    follow_rounds (T "old
") (length (T "old
"))
      [T "disk ERR"; [79; 82; 13]; [10; 195; 169; 116; 195; 169; 10]] = Some (ls, pos) /\
    concat ls = concat (map translate_newlines
                          [T "disk ERR"; [79; 82; 13]; [10; 233; 116; 233; 10]]) /\
    Forall (fun l => l <> []) ls /\
    pos = length (T "old
" ++ concat [T "disk ERR"; [79; 82; 13]; [10; 195; 169; 116; 195; 169; 10]]).
Proof.
  assert (H : Forall2 (fun a t => utf8_decode_strict a = Some t)
    [T "disk ERR"; [79; 82; 13]; [10; 195; 169; 116; 195; 169; 10]]
    [T "disk ERR"; [79; 82; 13]; [10; 233; 116; 233; 10]])
    by (repeat constructor; vm_compute; reflexivity).
  split; [exact H|].
  exact (follow_yields_appended_once (T "old
") _ _ H).
Defined.

(** *** [tail_file]'s inner loop *)

(** The effect on the store of the lines one round reads. *)
Definition persist_step (pat : text -> bool) (path : text) (ts : string)
    (s : mstore) (l : text) : mstore :=
  let line := rstrip_nl l in if pat line then persist_match s ts path line else s.

Lemma tail_inner_read (pat : text -> bool) (path : text) (ts : string) (fuel : nat)
    (t : text) (i : nat) (s : mstore) :
  tail_inner pat path ts fuel t i s =
    let '(ls, i') := read_available fuel t i in
    (fold_left (persist_step pat path ts) ls s, i').
Proof.
  revert i s. induction fuel as [|fuel IH]; intros i s; [done|].
  cbn [tail_inner read_available]. unfold readline.
  destruct (take_line (drop i t)) as [|c l]; [done|].
  rewrite IH. destruct (read_available fuel t _) as [ls p]. done.
Qed.

Lemma tail_round_eq (pat : text -> bool) (path : text) (ts : string)
    (content : bytes) (pos : nat) (s : mstore) :
  tail_round pat path ts content pos s =
    (fold_left (persist_step pat path ts)
       (text_lines (translate_newlines (utf8_decode_ignore (drop pos content)))) s,
     Nat.max pos (length content)).
Proof.
  unfold tail_round, text_lines. rewrite tail_inner_read.
  destruct (read_available _ _ _) as [ls p]. reflexivity.
Qed.

Lemma fold_persist_step (pat : text -> bool) (path : text) (ts : string)
    (ls : list text) (s : mstore) :
  exists new,
    ms_rows (fold_left (persist_step pat path ts) ls s) = ms_rows s ++ new /\
    map mrow_line new = map (take 4000) (filter (fun l => pat l = true) (map rstrip_nl ls)) /\
    Forall (fun r => mrow_filename r = path /\ mrow_timestamp r = ts /\ mrow_sent r = false) new.
Proof.
  revert s. induction ls as [|l ls IH]; intros s; simpl.
  - exists []. rewrite app_nil_r. split; [done|]. split; [done|constructor].
  - destruct (IH (persist_step pat path ts s l)) as [new [Hr [Hl Hf]]].
    rewrite Hr. unfold persist_step. destruct (pat (rstrip_nl l)) eqn:Hp.
    + rewrite filter_cons_True by done.
      eexists. split; [cbn [persist_match ms_rows]; by rewrite <- app_assoc|].
      split; [cbn [app map mrow_line]; rewrite Hl; reflexivity|].
      constructor; [done|exact Hf].
    + rewrite filter_cons_False by congruence.
      exists new. done.
Qed.

Lemma tail_round_props (pat : text -> bool) (path : text) (ts : string)
    (content : bytes) (pos : nat) (s : mstore) :
  (pos <= length content)%nat ->
  let t := translate_newlines (utf8_decode_ignore (drop pos content)) in
  let '(s', pos') := tail_round pat path ts content pos s in
  pos' = length content /\
  concat (text_lines t) = t /\
  Forall (fun l => l <> []) (text_lines t) /\
  exists new,
    ms_rows s' = ms_rows s ++ new /\
    map mrow_line new =
      map (take 4000) (filter (fun l => pat l = true) (map rstrip_nl (text_lines t))) /\
    Forall (fun r => mrow_filename r = path /\ mrow_timestamp r = ts /\ mrow_sent r = false) new.
Proof.
  intros Hpos t. rewrite tail_round_eq.
  destruct (text_lines_spec t) as [Hc [Hne _]].
  split; [lia|]. split; [exact Hc|]. split; [exact Hne|]. apply fold_persist_step.
Qed.

(** X12: one round of [tail_file]'s inner loop, from a byte offset inside
    the file, reads the file to its end ([pos] ends at EOF); the lines it
    reads are non-empty and make up exactly the rest of the file, decoded
    from UTF-8 with undecodable bytes dropped and "\r\n" and "\r" read as
    "\n"; it appends one row per line the pattern matches (after stripping
    the trailing newlines), in order, holding that line's first 4000
    characters, the watched path, the round's timestamp and [sent = 0], and
    leaves the rows already there untouched. *)
Theorem tail_round_spec (pat : text -> bool) (path : text) (ts : string)
    (content : bytes) (pos : nat) (s : mstore) :
  (pos <= length content)%nat ->
  let t := translate_newlines (utf8_decode_ignore (drop pos content)) in
  let '(s', pos') := tail_round pat path ts content pos s in
  pos' = length content /\
  concat (text_lines t) = t /\
  Forall (fun l => l <> []) (text_lines t) /\
  exists new,
    ms_rows s' = ms_rows s ++ new /\
    map mrow_line new =
      map (take 4000) (filter (fun l => pat l = true) (map rstrip_nl (text_lines t))) /\
    Forall (fun r => mrow_filename r = path /\ mrow_timestamp r = ts /\ mrow_sent r = false) new.
Proof. exact (tail_round_props pat path ts content pos s). Qed.

(** A file with CRLF and CR line ends and an undecodable byte. *)
Definition crlf_log : bytes :=
  T "boot ok" ++ [10] ++ T "a ERROR" ++ [13; 10] ++ T "b" ++ [255] ++ [13] ++
  T "FATAL c" ++ [10].

Lemma tail_round_spec_witness :
  (8 <= length crlf_log)%nat /\
  let t := translate_newlines (utf8_decode_ignore (drop 8 crlf_log)) in
  let '(s', pos') := tail_round default_pattern (T "/tmp/a.log") "t0" crlf_log 8
                       empty_mstore in
  pos' = length crlf_log /\
  concat (text_lines t) = t /\
  Forall (fun l => l <> []) (text_lines t) /\
  exists new,
    ms_rows s' = ms_rows empty_mstore ++ new /\
    map mrow_line new =
      map (take 4000) (filter (fun l => default_pattern l = true)
                         (map rstrip_nl (text_lines t))) /\
    Forall (fun r => mrow_filename r = T "/tmp/a.log" /\ mrow_timestamp r = "t0" /\
                     mrow_sent r = false) new.
Proof.
  assert (H : (8 <= length crlf_log)%nat) by (vm_compute; lia).
  split; [exact H|].
  exact (tail_round_spec default_pattern (T "/tmp/a.log") "t0" crlf_log 8 empty_mstore H).
Defined.

(** *** [tail_file]'s outer loop *)

(** What [tail_file] keeps between iterations of its outer loop. *)
Record tail_state := {
  tst_pos : nat;
  tst_inode : option Z
}.

(** One iteration of the outer [while True] of [tail_file]: [fs] is what
    [os.path.exists] and [os.stat] see ([None] when the path does not exist,
    otherwise the inode and the current bytes). A new inode reopens the
    file at its end ([start_at_end]) or at its start; the same inode
    reopens it at the saved [pos]; then the inner loop runs. *)
Definition tail_iter (pat : text -> bool) (path : text) (start_at_end : bool)
    (ts : string) (fs : option (Z * bytes)) (st : tail_state) (s : mstore)
    : tail_state * mstore :=
  match fs with
  | None => (st, s)
  | Some (ino, content) =>
      let pos0 :=
        if bool_decide (tst_inode st = Some ino) then tst_pos st
        else if start_at_end then length content else 0%nat in
      let '(s', pos') := tail_round pat path ts content pos0 s in
      ({| tst_pos := pos'; tst_inode := Some ino |}, s')
  end.

Definition mids_increasing (s : mstore) : Prop :=
  StronglySorted Z.lt (map mrow_id (ms_rows s)).

Lemma tail_round_at_eof (pat : text -> bool) (path : text) (ts : string)
    (content : bytes) (pos : nat) (s : mstore) :
  (length content <= pos)%nat -> tail_round pat path ts content pos s = (s, pos).
Proof.
  intros Hle. unfold tail_round. rewrite drop_ge by lia.
  f_equal. lia.
Qed.

Lemma mmax_id_ge (rs : list mrow) (i : Z) : i ∈ map mrow_id rs -> i <= mmax_id rs.
Proof.
  induction rs as [|r rs IH]; simpl; intros Hi; [by apply not_elem_of_nil in Hi|].
  apply elem_of_cons in Hi as [->|Hi]; [lia|]. specialize (IH Hi). lia.
Qed.

Lemma persist_match_ids (s : mstore) (ts : string) (filename line : text) :
  mids_increasing s -> mids_increasing (persist_match s ts filename line).
Proof.
  unfold mids_increasing, persist_match. cbn [ms_rows]. rewrite map_app. cbn [map mrow_id].
  intros Hs. apply strongly_sorted_snoc; [exact Hs|].
  intros y Hy. apply mmax_id_ge in Hy. lia.
Qed.

(** X13: when the file has been replaced (a new inode, as after a log
    rotation) and the tailer starts at the end, everything already written to
    the new file is skipped: nothing is persisted and [pos] is set to the end
    of the new file. *)
Theorem tail_iter_new_inode_skips_content (pat : text -> bool) (path : text)
    (ts : string) (ino : Z) (content : bytes) (st : tail_state) (s : mstore) :
  tst_inode st <> Some ino ->
  tail_iter pat path true ts (Some (ino, content)) st s =
    ({| tst_pos := length content; tst_inode := Some ino |}, s).
Proof.
  intros Hino. unfold tail_iter. rewrite bool_decide_false by exact Hino.
  rewrite tail_round_at_eof by lia. reflexivity.
Qed.

Lemma tail_iter_new_inode_skips_content_witness :
  None <> Some 7%Z /\
  tail_iter default_pattern (T "/tmp/a.log") true "t0" (Some (7%Z, T "x ERROR
"))
    {| tst_pos := 0; tst_inode := None |} empty_mstore =
    ({| tst_pos := length (T "x ERROR
"); tst_inode := Some 7%Z |}, empty_mstore).
Proof.
  assert (H : tst_inode {| tst_pos := 0; tst_inode := None |} <> Some 7%Z) by discriminate.
  split; [exact H|].
  exact (tail_iter_new_inode_skips_content default_pattern (T "/tmp/a.log") "t0" 7%Z
    (T "x ERROR
") _ empty_mstore H).
Defined.

(** X14: when the file was truncated in place (same inode, now no longer
    than the saved [pos]), the iteration reads nothing, persists nothing and
    keeps the old [pos], whichever start mode was chosen: lines written
    after the truncation are not read until the file grows past the old
    offset. *)
Theorem tail_iter_truncated_reads_nothing (pat : text -> bool) (path : text)
    (start_at_end : bool) (ts : string) (ino : Z) (content : bytes)
    (st : tail_state) (s : mstore) :
  tst_inode st = Some ino -> (length content <= tst_pos st)%nat ->
  tail_iter pat path start_at_end ts (Some (ino, content)) st s =
    ({| tst_pos := tst_pos st; tst_inode := Some ino |}, s).
Proof.
  intros Hino Hle. unfold tail_iter. rewrite bool_decide_true by exact Hino.
  rewrite tail_round_at_eof by exact Hle. reflexivity.
Qed.

Lemma tail_iter_truncated_reads_nothing_witness :
  tst_inode {| tst_pos := 20; tst_inode := Some 7%Z |} = Some 7%Z /\
  (length (T "boot ERROR
") <= tst_pos {| tst_pos := 20; tst_inode := Some 7%Z |})%nat /\
  tail_iter default_pattern (T "/tmp/a.log") false "t0" (Some (7%Z, T "boot ERROR
"))
    {| tst_pos := 20; tst_inode := Some 7%Z |} empty_mstore =
    ({| tst_pos := 20; tst_inode := Some 7%Z |}, empty_mstore).
Proof.
  assert (H1 : tst_inode {| tst_pos := 20; tst_inode := Some 7%Z |} = Some 7%Z) by reflexivity.
  assert (H2 : (length (T "boot ERROR
") <= tst_pos {| tst_pos := 20; tst_inode := Some 7%Z |})%nat)
    by (vm_compute; lia).
  split; [exact H1|split; [exact H2|]].
  exact (tail_iter_truncated_reads_nothing default_pattern (T "/tmp/a.log") false "t0" 7%Z
    (T "boot ERROR
") _ empty_mstore H1 H2).
Defined.

(** X15: with [--start-at-begin], a newly seen file (first iteration or
    new inode) is read in full: [pos] ends at its end, the lines read make
    up the whole file decoded (undecodable bytes dropped, newlines
    translated), and one row is appended per matching line, in order. *)
Theorem tail_iter_start_at_begin_reads_all (pat : text -> bool) (path : text)
    (ts : string) (ino : Z) (content : bytes) (st : tail_state) (s : mstore) :
  tst_inode st <> Some ino ->
  let t := translate_newlines (utf8_decode_ignore content) in
  let '(st', s') := tail_iter pat path false ts (Some (ino, content)) st s in
  st' = {| tst_pos := length content; tst_inode := Some ino |} /\
  concat (text_lines t) = t /\
  exists new,
    ms_rows s' = ms_rows s ++ new /\
    map mrow_line new =
      map (take 4000) (filter (fun l => pat l = true) (map rstrip_nl (text_lines t))).
Proof.
  intros Hino t. unfold tail_iter. rewrite bool_decide_false by exact Hino.
  pose proof (tail_round_props pat path ts content 0 s ltac:(lia)) as Hr.
  cbv zeta in Hr. rewrite drop_0 in Hr.
  destruct (tail_round pat path ts content 0 s) as [s' pos'].
  destruct Hr as [-> [Hc [_ [new [Hrows [Hl _]]]]]].
  split; [done|]. split; [exact Hc|]. exists new. done.
Qed.

Lemma tail_iter_start_at_begin_reads_all_witness :
  None <> Some 7%Z /\
  let t := translate_newlines (utf8_decode_ignore crlf_log) in
  let '(st', s') := tail_iter default_pattern (T "/tmp/a.log") false "t0"
                      (Some (7%Z, crlf_log)) {| tst_pos := 0; tst_inode := None |}
                      empty_mstore in
  st' = {| tst_pos := length crlf_log; tst_inode := Some 7%Z |} /\
  concat (text_lines t) = t /\
  exists new,
    ms_rows s' = ms_rows empty_mstore ++ new /\
    map mrow_line new =
      map (take 4000) (filter (fun l => default_pattern l = true)
                         (map rstrip_nl (text_lines t))).
Proof.
  assert (H : tst_inode {| tst_pos := 0; tst_inode := None |} <> Some 7%Z) by discriminate.
  split; [exact H|].
  exact (tail_iter_start_at_begin_reads_all default_pattern (T "/tmp/a.log") "t0" 7%Z
    crlf_log _ empty_mstore H).
Defined.

(** X16: every iteration of [tail_file] keeps the ids of the outbox rows
    strictly increasing in insertion order ([persist_match] gives each new row
    an id above every id already in the table). *)
Theorem tail_iter_ids_increasing (pat : text -> bool) (path : text)
    (start_at_end : bool) (ts : string) (fs : option (Z * bytes))
    (st : tail_state) (s : mstore) :
  mids_increasing s -> mids_increasing (snd (tail_iter pat path start_at_end ts fs st s)).
Proof.
  intros Hs. destruct fs as [[ino content]|]; [|exact Hs].
  unfold tail_iter. rewrite tail_round_eq. cbn [snd].
  generalize (text_lines (translate_newlines (utf8_decode_ignore (drop
    (if bool_decide (tst_inode st = Some ino) then tst_pos st
     else if start_at_end then length content else 0%nat) content)))) as ls.
  intros ls. revert s Hs. induction ls as [|l ls IH]; intros s Hs; [exact Hs|].
  cbn [fold_left]. apply IH. unfold persist_step.
  destruct (pat (rstrip_nl l)); [by apply persist_match_ids|exact Hs].
Qed.

Lemma tail_iter_ids_increasing_witness :
  mids_increasing empty_mstore /\
  mids_increasing (snd (tail_iter default_pattern (T "/tmp/a.log") false "t0"
    (Some (7%Z, crlf_log)) {| tst_pos := 0; tst_inode := None |} empty_mstore)).
Proof.
  assert (H : mids_increasing empty_mstore) by constructor.
  split; [exact H|].
  exact (tail_iter_ids_increasing default_pattern (T "/tmp/a.log") false "t0" _ _ _ H).
Defined.

(** *** Flushing against a reachable server, and [retry_loop] *)








(** *** Ingestion against a reachable server *)



(** [reached_store] after a flush against the reachable server. *)
Definition delivered_store : outbox :=
  fst (fst (flush_outbox mongo_insert_many 5 "now" reached_store remote_up)).


(** *** A read round of the tailers, and its trailing fragment *)

Lemma rstrip_nl_fragment (f : text) : last f <> Some newline -> rstrip_nl f = f.
Proof.
  intros Hf. pose proof (rstrip_nl_snoc_repeat f 0 Hf) as H.
  cbn [repeat] in H. by rewrite app_nil_r in H.
Qed.

Lemma tail_round_last_row (pat : text -> bool) (path : text) (ts : string)
    (content : bytes) (pos : nat) (s : mstore) (f : text) :
  last (text_lines (translate_newlines (utf8_decode_ignore (drop pos content)))) = Some f ->
  last f <> Some newline -> pat f = true ->
  last (map mrow_line (ms_rows (fst (tail_round pat path ts content pos s)))) =
    Some (take 4000 f).
Proof.
  intros Hl Hf Hp. rewrite tail_round_eq. cbn [fst].
  destruct (nil_or_snoc (text_lines (translate_newlines (utf8_decode_ignore (drop pos content)))))
    as [Hn|[ls [f' Hs]]]; [rewrite Hn in Hl; discriminate|].
  rewrite Hs, last_snoc in Hl. injection Hl as ->. rewrite Hs, fold_left_app.
  cbn [fold_left]. unfold persist_step. rewrite rstrip_nl_fragment by exact Hf.
  rewrite Hp. cbn [persist_match ms_rows]. rewrite map_app. cbn [map mrow_line]. rewrite last_snoc. reflexivity.
Qed.

(** A file whose last line has no newline yet, with CRLF and CR line ends. *)
Definition fragment_log : bytes :=
  T "old" ++ [10] ++ T "disk ERROR" ++ [13; 10] ++ T "x" ++ [13] ++ T "frag".

(** C9 (amended): in a read round from a byte offset [pos] inside the file,
    the tailers read with [readline] until it returns "". For [follow]:
    when the rest of the file decodes as UTF-8 to [t], the lines yielded are
    non-empty, make up [t] with "\r\n" and "\r" read as "\n", and every one
    but possibly the last ends with a newline (a trailing fragment without
    newline is yielded at once as the last line), and the offset moves to
    EOF; when the rest does not decode, the round raises. For the minimal
    tailer, the round reads the rest decoded with undecodable bytes dropped
    and moves to EOF. The outbox agent persists a fragment yielded as the
    last line, as its own message; the minimal tailer persists it when the
    pattern matches. Text appended later is read in the next round on its
    own, as separate lines. *)
Theorem follow_round_consumes_to_eof (content : bytes) (pos : nat) :
  (pos <= length content)%nat ->
  (forall t, utf8_decode_strict (drop pos content) = Some t ->
     exists lines, follow_round content pos = Some (lines, length content) /\
       concat lines = translate_newlines t /\
       Forall (fun l => l <> []) lines /\
       (forall i l, lines !! i = Some l -> last l <> Some newline -> S i = length lines)) /\
  (utf8_decode_strict (drop pos content) = None -> follow_round content pos = None) /\
  (forall pat path ts s,
     tail_round pat path ts content pos s =
       (fold_left (persist_step pat path ts)
          (text_lines (translate_newlines (utf8_decode_ignore (drop pos content)))) s,
        length content)) /\
  (forall insert_many bs s c eids ts ls f,
     f <> [] -> last f <> Some newline ->
     NoDup (eids ++ map row_event_id (ob_rows s)) -> (length (ls ++ [f]) <= length eids)%nat ->
     last (map row_message (ob_rows (fst (monitor_lines insert_many bs s c eids ts (ls ++ [f])))))
       = Some f) /\
  (forall pat path ts s f,
     last (text_lines (translate_newlines (utf8_decode_ignore (drop pos content)))) = Some f ->
     last f <> Some newline -> pat f = true ->
     last (map mrow_line (ms_rows (fst (tail_round pat path ts content pos s)))) =
       Some (take 4000 f)) /\
  (forall a t, utf8_decode_strict a = Some t ->
     follow_round (content ++ a) (length content) =
       Some (text_lines (translate_newlines t), length (content ++ a))) /\
  (forall pat path ts a s,
     fst (tail_round pat path ts (content ++ a) (length content) s) =
       fst (tail_round pat path ts a 0 s)).
Proof.
  intros Hpos.
  assert (Hmax : Nat.max pos (length content) = length content) by lia.
  split.
  { intros t Ht. unfold follow_round. rewrite Ht, Hmax.
    destruct (text_lines_spec (translate_newlines t)) as [Hc [Hne Hl]].
    eexists. split; [reflexivity|]. done. }
  split.
  { intros Ht. unfold follow_round. by rewrite Ht. }
  split.
  { intros pat path ts s. by rewrite tail_round_eq, Hmax. }
  split.
  { intros insert_many bs s c eids ts ls f Hne Hf Hnd Hlen.
    rewrite (monitor_lines_messages insert_many bs s c eids ts _ Hnd Hlen).
    rewrite map_app, filter_app. cbn [map]. rewrite rstrip_nl_fragment by exact Hf.
    rewrite filter_cons_True by exact Hne. cbn [filter list_filter].
    rewrite app_assoc, last_snoc. reflexivity. }
  split.
  { intros pat path ts s f. apply tail_round_last_row. }
  split.
  { intros a t Ht. unfold follow_round. rewrite drop_app_length, Ht.
    f_equal. f_equal. rewrite length_app. lia. }
  intros pat path ts a s. unfold tail_round. by rewrite drop_app_length, drop_0.
Qed.

Lemma follow_round_consumes_to_eof_witness :
  (4 <= length crlf_log)%nat /\
  follow_round crlf_log 4 = None /\
  follow_round fragment_log 4 =
    Some ([T "disk ERROR" ++ [10]; T "x" ++ [10]; T "frag"], 22%nat) /\
  last (map row_message (ob_rows (fst (monitor_lines mongo_insert_many 5 delivered_store
    remote_down ["e3"; "e4"] "t1" ([T "x" ++ [10]] ++ [T "disk ERR"]))))) = Some (T "disk ERR").
Proof.
  assert (H : (4 <= length crlf_log)%nat) by (vm_compute; lia).
  split; [exact H|]. split; [vm_compute; reflexivity|].
  split; [vm_compute; reflexivity|].
  assert (H2 : (4 <= length fragment_log)%nat) by (vm_compute; lia).
  destruct (follow_round_consumes_to_eof _ 4 H2) as [_ [_ [_ [Hfrag _]]]].
  apply Hfrag.
  - discriminate.
  - vm_compute. discriminate.
  - apply (bool_decide_unpack _). vm_compute. reflexivity.
  - simpl. lia.
Defined.
